(** * PPT2Manual: layout generators and PDF merger

    A shallow embedding of the page-layout and merge code of PPT2Manual
    ([src/core/slide_layout_generator.py], [src/core/pdf_layout_generator.py],
    [src/core/pdf_merger.py] and the tail of [PPTConverterThread.run] in
    [src/core/ppt_converter.py]).

    Floating-point coordinates are modelled by exact rationals [Q]: the
    properties below are the ones the arithmetic is meant to have, read over
    exact numbers. Pixel sizes (Python ints) are [Z]. The progress
    percentage of [ProgressTracker], whose value is reported to the user, is
    evaluated in binary64 doubles ([SpecFloat]) as Python evaluates it. *)

From Stdlib Require Import String Ascii.
From Stdlib Require Import QArith Qround Lqa ZArith Lia List Bool Permutation Sorted.
From Stdlib Require SpecFloat.
Import ListNotations.

Open Scope Q_scope.

(* ------------------------------------------------------------------ *)
(** ** Python-level helpers *)

(** Python exceptions relevant to the modelled code.  [LayoutError] is the
    error kind named in the design document; no code of the repository
    raises it. *)
Inductive exn :=
| ZeroDivisionError
| OverflowError
| ValueError
| LayoutError.

Inductive py_result (A : Type) :=
| Ok (a : A)
| Raise (e : exn).
Arguments Ok {A} a.
Arguments Raise {A} e.

(** Strict comparison [a < b] as a boolean. *)
Definition Qlt_bool (a b : Q) : bool := negb (Qle_bool b a).

(** [int(q)]: truncation towards zero. *)
Definition py_int (q : Q) : Z :=
  if Qle_bool 0 q then Qfloor q else (- Qfloor (- q))%Z.

(** Python [max] of two numbers (the first one on ties). *)
Definition py_max (a b : Q) : Q := if Qlt_bool a b then b else a.

(** [reportlab.lib.pagesizes.A4] = (210 mm, 297 mm) in points (72/25.4 pt per mm). *)
Definition A4_width : Q := 75600 # 127.
Definition A4_height : Q := 106920 # 127.

(* ------------------------------------------------------------------ *)
(** ** Slot geometry ([__init__] of both layout generators) *)

Definition slides_per_page : nat := 8.

(** Python's true division of a number by an int: [ZeroDivisionError] on a
    zero divisor. *)
Definition py_div_int (a : Q) (b : Z) : py_result Q :=
  if Z.eqb b 0 then Raise ZeroDivisionError else Ok (a / inject_Z b).

(** The slot size computed by [__init__] of [PDFLayoutGenerator] and of
    [ChineseSlideLayoutGenerator] (the same lines): the page is [A4], the
    margin 36, the gap 12, 2 slots per row and 4 per column; the
    constructor takes no argument. *)
Definition layout_init : py_result (Q * Q) :=
  let page_width := A4_width in
  let page_height := A4_height in
  let margin := 36 in
  let gap := 12 in
  let per_row := 2%Z in
  let per_col := 4%Z in
  let available_width := page_width - 2 * margin - (inject_Z per_row - 1) * gap in
  let available_height := page_height - 2 * margin - (inject_Z per_col - 1) * gap - 40 in
  match py_div_int available_width per_row with
  | Raise e => Raise e
  | Ok slot_width =>
      match py_div_int available_height per_col with
      | Raise e => Raise e
      | Ok slot_height => Ok (slot_width, slot_height)
      end
  end.

Definition slot_width : Q := (A4_width - 2 * 36 - (2 - 1) * 12) / 2.
Definition slot_height : Q := (A4_height - 2 * 36 - (4 - 1) * 12 - 40) / 4.

(** [_calculate_slot_position]: bottom-left corner of slot [position]. *)
Definition slot_row_col (position : nat) : nat * nat :=
  (Nat.div position 2, Nat.modulo position 2).

Definition calculate_slot_position (sw sh : Q) (position : nat) : Q * Q :=
  let '(row, col) := slot_row_col position in
  (36 + inject_Z (Z.of_nat col) * (sw + 12),
   A4_height - 36 - (inject_Z (Z.of_nat row) + 1) * (sh + 12)).

(* ------------------------------------------------------------------ *)
(** ** Aspect-fit placement ([_draw_slide_with_correct_aspect_ratio],
       [_draw_page_with_aspect_ratio]; both copies compute the same numbers) *)

Record placement := {
  img_x : Q;
  img_y : Q;
  display_width : Q;
  display_height : Q
}.

Definition aspect_fit (slot_x slot_y sw sh : Q) (original_width original_height : Z)
    : placement :=
  let original_aspect_ratio := inject_Z original_width / inject_Z original_height in
  let slot_aspect_ratio := sw / sh in
  let '(dw, dh) :=
    if Qlt_bool slot_aspect_ratio original_aspect_ratio
    then (sw, sw / original_aspect_ratio)
    else (sh * original_aspect_ratio, sh) in
  {| img_x := slot_x + (sw - dw) / 2;
     img_y := slot_y + (sh - dh) / 2;
     display_width := dw;
     display_height := dh |}.

(** The pre-downscale step: [None] keeps the buffer, [Some (w, h)] is the size
    passed to [img.resize]. *)
Definition pre_downscale (original_width original_height : Z) (dw dh : Q)
    : option (Z * Z) :=
  let max_display_dimension := py_max dw dh * 2 in
  let max_original := inject_Z (Z.max original_width original_height) in
  if Qlt_bool (max_display_dimension * 2) max_original then
    let scale_factor := (max_display_dimension * 2) / max_original in
    Some (py_int (inject_Z original_width * scale_factor),
          py_int (inject_Z original_height * scale_factor))
  else None.

(** One image drawn at [position] of an A4 grid page. *)
Definition draw_slide (position : nat) (original_width original_height : Z)
    : placement * option (Z * Z) :=
  let '(slot_x, slot_y) := calculate_slot_position slot_width slot_height position in
  let pl := aspect_fit slot_x slot_y slot_width slot_height
              original_width original_height in
  (pl, pre_downscale original_width original_height
         (display_width pl) (display_height pl)).

(* ------------------------------------------------------------------ *)
(** ** Arithmetic facts about the placement *)

Lemma Qlt_bool_iff (a b : Q) : Qlt_bool a b = true <-> a < b.
Proof.
  unfold Qlt_bool. rewrite negb_true_iff. split.
  - intro H. apply Qnot_le_lt. intro Hle. apply Qle_bool_iff in Hle. congruence.
  - intro H. destruct (Qle_bool b a) eqn:E; [|reflexivity].
    apply Qle_bool_iff in E. exfalso. apply (Qlt_not_le a b); assumption.
Qed.

Lemma Qlt_bool_false_iff (a b : Q) : Qlt_bool a b = false <-> b <= a.
Proof.
  unfold Qlt_bool. rewrite negb_false_iff. apply Qle_bool_iff.
Qed.

Lemma Qdiv_times (x c : Q) : ~ c == 0 -> x / c * c == x.
Proof. intro H. field. exact H. Qed.

Lemma inject_Z_pos (z : Z) : (0 < z)%Z -> 0 < inject_Z z.
Proof. intro H. unfold Qlt. simpl. lia. Qed.

(** Claim C4: for a source image with positive pixel sizes and a slot of
    positive size, the aspect-fit rectangle lies inside the slot, fills it
    along the width when the source is wider than the slot (along the
    height otherwise), keeps the source aspect ratio, and is centred (equal
    margins on both sides of each axis). *)
Theorem aspect_fit_inside_centered (slot_x slot_y sw sh : Q) (ow oh : Z) :
  0 < sw -> 0 < sh -> (0 < ow)%Z -> (0 < oh)%Z ->
  let pl := aspect_fit slot_x slot_y sw sh ow oh in
  (slot_x <= img_x pl /\ img_x pl + display_width pl <= slot_x + sw /\
   slot_y <= img_y pl /\ img_y pl + display_height pl <= slot_y + sh) /\
  (0 < display_width pl /\ 0 < display_height pl) /\
  (if Qlt_bool (sw / sh) (inject_Z ow / inject_Z oh)
   then display_width pl == sw else display_height pl == sh) /\
  display_width pl * inject_Z oh == display_height pl * inject_Z ow /\
  img_x pl - slot_x == (slot_x + sw) - (img_x pl + display_width pl) /\
  img_y pl - slot_y == (slot_y + sh) - (img_y pl + display_height pl).
Proof.
  intros Hsw Hsh How Hoh pl.
  pose proof (inject_Z_pos ow How) as Ha.
  pose proof (inject_Z_pos oh Hoh) as Hb.
  set (a := inject_Z ow) in *. set (b := inject_Z oh) in *.
  assert (Hr : (a / b) * b == a) by (apply Qdiv_times; lra).
  assert (Hs : (sw / sh) * sh == sw) by (apply Qdiv_times; lra).
  assert (Hrpos : 0 < a / b).
  { apply Qlt_shift_div_l; lra. }
  subst pl. unfold aspect_fit. fold a b.
  destruct (Qlt_bool (sw / sh) (a / b)) eqn:E; simpl.
  - apply Qlt_bool_iff in E.
    assert (Hq : (sw / (a / b)) * (a / b) == sw) by (apply Qdiv_times; lra).
    set (r := a / b) in *. set (s := sw / sh) in *. set (q := sw / r) in *.
    assert (Hqpos : 0 < q) by nra.
    assert (Hqle : q <= sh) by nra.
    unfold Qdiv; change (/ 2) with (1 # 2).
    repeat split; try lra.
    rewrite <- Hr, <- Hq. ring.
  - apply Qlt_bool_false_iff in E.
    set (r := a / b) in *. set (s := sw / sh) in *.
    assert (Hwle : sh * r <= sw) by nra.
    assert (Hwpos : 0 < sh * r) by nra.
    unfold Qdiv; change (/ 2) with (1 # 2).
    repeat split; try lra.
    rewrite <- Hr. ring.
Qed.

(** Claim C5 (evaluated at a 4000 x 3000 pixel slide in slot 0): the larger
    display dimension is 231.3 pt, so the buffer is resampled (4000 > 4 x 231.3),
    but to 925 x 693 pixels, i.e. four times the larger display dimension,
    where the claim says two times (462 pixels). *)
Theorem pre_downscale_resamples_to_four_times :
  let '(pl, r) := draw_slide 0 4000 3000 in
  display_width pl == 352496000 # 1524000 /\
  display_height pl == slot_height /\
  r = Some (925%Z, 693%Z) /\
  py_int (2 * py_max (display_width pl) (display_height pl)) = 462%Z.
Proof. vm_compute. repeat split; reflexivity. Qed.

(** Claim C6: the slot geometry computed by [__init__] has no failure
    mode: it raises nothing (in particular no [LayoutError] and no
    [ZeroDivisionError]) and always yields the same slot size, whose width
    and height are both positive, so the rejection of non-positive
    dimensions never applies. *)
Theorem slot_geometry_no_failure :
  layout_init = Ok (slot_width, slot_height) /\
  (forall e, layout_init <> Raise e) /\
  0 < slot_width /\ 0 < slot_height.
Proof.
  assert (E : layout_init = Ok (slot_width, slot_height)) by reflexivity.
  split; [exact E|]. split; [intros e; rewrite E; discriminate|].
  split; vm_compute; reflexivity.
Qed.

(* ------------------------------------------------------------------ *)
(** ** Grid page renderer ([create_layout_pdf],
       [_create_layout_pdf_from_images]) *)

(** [range(start, stop, step)] for [step >= 1]; [fuel] bounds the number of
    iterations ([stop] is enough from [start = 0]). *)
Fixpoint py_range_from (fuel start stop step : nat) : list nat :=
  match fuel with
  | O => []
  | S f => if start <? stop then start :: py_range_from f (start + step) stop step
           else []
  end.

Definition py_range (start stop step : nat) : list nat :=
  py_range_from stop start stop step.

(** [l[a:b]] for [0 <= a <= b]. *)
Definition py_slice {A} (l : list A) (a b : nat) : list A :=
  firstn (b - a) (skipn a l).

(** [enumerate(l)]. *)
Definition enumerate {A} (l : list A) : list (nat * A) :=
  combine (seq 0 (length l)) l.

Section GridRenderer.
Variable image : Type.

(** A reportlab canvas as the layout code uses it: the pages already
    emitted by [showPage] and the drawing on the current page, one entry
    (slot position, source image) per slide drawn, whether the image is
    drawn or replaced by an error placeholder at the same slot. *)
Record canvas := {
  emitted : list (list (nat * image));
  current : list (nat * image)
}.

Definition empty_canvas : canvas := {| emitted := []; current := [] |}.

Definition showPage (c : canvas) : canvas :=
  {| emitted := emitted c ++ [current c]; current := [] |}.

Definition draw_at (c : canvas) (e : nat * image) : canvas :=
  {| emitted := emitted c; current := current c ++ [e] |}.

(** [c.save()] emits the current page if anything was drawn on it. *)
Definition save (c : canvas) : list (list (nat * image)) :=
  match current c with
  | [] => emitted c
  | _ => emitted (showPage c)
  end.

(** One iteration of [for page_start in range(0, len(slide_images), 8)]. *)
Definition render_group (slide_images : list image) (c : canvas) (page_start : nat)
    : canvas :=
  let c := if 0 <? page_start then showPage c else c in
  let page_slides := py_slice slide_images page_start (page_start + slides_per_page) in
  fold_left draw_at (enumerate page_slides) c.

(** The output pages of the layout PDF. *)
Definition create_layout_pdf (slide_images : list image) : list (list (nat * image)) :=
  save (fold_left (render_group slide_images)
          (py_range 0 (length slide_images) slides_per_page) empty_canvas).

(** The group of images on output page [k]. *)
Definition grid_group (slide_images : list image) (k : nat) : list (nat * image) :=
  enumerate (firstn 8 (skipn (8 * k) slide_images)).

End GridRenderer.

Arguments create_layout_pdf {image} slide_images.
Arguments grid_group {image} slide_images k.

(* ------------------------------------------------------------------ *)
(** ** Facts about the grid renderer *)

Section GridFacts.
Context {image : Type}.
Local Open Scope nat_scope.

Lemma py_range_from_step8 (fuel start stop : nat) :
  stop - start <= fuel ->
  py_range_from fuel start stop 8 =
  map (fun k => start + 8 * k) (seq 0 ((stop - start + 7) / 8)).
Proof.
  revert start. induction fuel as [|f IH]; intros start Hf; cbn [py_range_from].
  - replace (stop - start) with 0 by lia. reflexivity.
  - destruct (start <? stop) eqn:E.
    + apply Nat.ltb_lt in E.
      rewrite IH by lia.
      assert (Hd : (stop - start + 7) / 8 = S ((stop - (start + 8) + 7) / 8)).
      { destruct (Nat.le_gt_cases (stop - start) 8) as [Hle|Hgt].
        - replace (stop - (start + 8) + 7) with 7 by lia.
          pose proof (Nat.div_mod (stop - start + 7) 8).
          pose proof (Nat.mod_upper_bound (stop - start + 7) 8).
          assert (H7 : 7 / 8 = 0) by reflexivity. rewrite H7. lia.
        - replace (stop - start + 7) with ((stop - (start + 8) + 7) + 1 * 8) by lia.
          rewrite Nat.div_add by lia. lia. }
      rewrite Hd. simpl. f_equal; [lia|].
      rewrite <- seq_shift, map_map. apply map_ext. intro k. lia.
    + apply Nat.ltb_ge in E. replace (stop - start) with 0 by lia. reflexivity.
Qed.

Lemma py_range_0_step8 (n : nat) :
  py_range 0 n 8 = map (fun k => 8 * k) (seq 0 ((n + 7) / 8)).
Proof.
  unfold py_range. rewrite py_range_from_step8 by lia.
  rewrite Nat.sub_0_r. reflexivity.
Qed.

Lemma fold_draw_at (es : list (nat * image)) (c : canvas image) :
  fold_left (@draw_at image) es c =
  {| emitted := emitted image c; current := current image c ++ es |}.
Proof.
  revert c. induction es as [|e es IH]; intro c; simpl.
  - rewrite app_nil_r. destruct c; reflexivity.
  - rewrite IH. simpl. rewrite <- app_assoc. reflexivity.
Qed.

Lemma fold_render_groups (l : list image) (m : nat) :
  fold_left (render_group image l) (map (fun k => 8 * k) (seq 0 (S m)))
    (empty_canvas image) =
  {| emitted := map (grid_group l) (seq 0 m); current := grid_group l m |}.
Proof.
  induction m as [|m IH].
  - simpl. unfold render_group. simpl. rewrite fold_draw_at. reflexivity.
  - rewrite seq_S, map_app, fold_left_app, IH, Nat.add_0_l. cbn [map fold_left].
    unfold render_group. cbv zeta.
    replace (0 <? 8 * S m) with true by (symmetry; apply Nat.ltb_lt; lia).
    rewrite fold_draw_at. cbn [showPage emitted current app].
    rewrite (seq_S m 0), map_app, Nat.add_0_l. f_equal.
    unfold py_slice, grid_group.
    replace (8 * S m + slides_per_page - 8 * S m) with 8
      by (unfold slides_per_page; lia).
    reflexivity.
Qed.

Lemma enumerate_from_nth (l : list image) (s j : nat) :
  nth_error (combine (seq s (length l)) l) j =
  option_map (fun x => (s + j, x)) (nth_error l j).
Proof.
  revert s j. induction l as [|x l IH]; intros s j; simpl.
  - destruct j; reflexivity.
  - destruct j as [|j]; simpl.
    + rewrite Nat.add_0_r. reflexivity.
    + rewrite IH. destruct (nth_error l j); simpl; [|reflexivity].
      do 2 f_equal. lia.
Qed.
Lemma enumerate_nth (l : list image) (j : nat) :
  nth_error (enumerate l) j = option_map (fun x => (j, x)) (nth_error l j).
Proof. unfold enumerate. apply enumerate_from_nth. Qed.

Lemma grid_group_length (l : list image) (k : nat) :
  length (grid_group l k) = Nat.min 8 (length l - 8 * k).
Proof.
  unfold grid_group, enumerate.
  rewrite length_combine, length_seq, Nat.min_id, length_firstn, length_skipn.
  reflexivity.
Qed.

Lemma grid_group_nth (l : list image) (k r : nat) :
  r < 8 -> nth_error (grid_group l k) r = option_map (fun x => (r, x)) (nth_error l (8 * k + r)).
Proof.
  intro Hr. unfold grid_group. rewrite enumerate_nth, nth_error_firstn.
  replace (r <? 8) with true by (symmetry; apply Nat.ltb_lt; exact Hr).
  rewrite nth_error_skipn. reflexivity.
Qed.

Lemma ceil8_bounds (n : nat) :
  0 < n -> 0 < (n + 7) / 8 /\ 8 * ((n + 7) / 8 - 1) < n /\ n <= 8 * ((n + 7) / 8).
Proof.
  intro H.
  pose proof (Nat.div_mod (n + 7) 8 ltac:(lia)).
  pose proof (Nat.mod_upper_bound (n + 7) 8 ltac:(lia)).
  lia.
Qed.

(** The output pages are the consecutive groups of eight images, each
    enumerated from slot 0. *)
Lemma create_layout_pdf_groups (l : list image) :
  l <> [] ->
  create_layout_pdf l = map (grid_group l) (seq 0 ((length l + 7) / 8)).
Proof.
  intro Hne.
  assert (Hpos : 0 < length l) by (destruct l; [congruence | simpl; lia]).
  destruct (ceil8_bounds (length l) Hpos) as (H0 & Hlast & _).
  unfold create_layout_pdf.
  rewrite py_range_0_step8.
  destruct ((length l + 7) / 8) as [|m] eqn:E; [lia|].
  rewrite fold_render_groups. unfold save. cbn [current emitted showPage].
  rewrite (seq_S m 0), map_app, Nat.add_0_l.
  destruct (grid_group l m) as [|e es] eqn:G.
  - exfalso. pose proof (grid_group_length l m) as HL. rewrite G in HL.
    cbn [length] in HL. replace (S m - 1) with m in Hlast by lia. lia.
  - cbn [map]. rewrite G. reflexivity.
Qed.
End GridFacts.

Section GridClaim.
Local Open Scope nat_scope.

Lemma nth_error_grid_pages {image : Type} (l : list image) (k : nat) :
  l <> [] -> k < (length l + 7) / 8 ->
  nth_error (create_layout_pdf l) k = Some (grid_group l k).
Proof.
  intros Hne Hk. rewrite create_layout_pdf_groups by exact Hne.
  rewrite nth_error_map, nth_error_seq.
  replace (k <? (length l + 7) / 8) with true by (symmetry; apply Nat.ltb_lt; exact Hk).
  reflexivity.
Qed.

(** Claim C3: a non-empty list of N images gives ceil(N/8) output pages;
    image i sits at slot i mod 8 (row (i mod 8)/2 of 4, column (i mod 8) mod 2
    of 2) on page i/8; every page but the last holds 8 entries, and the
    last holds N mod 8 entries when N mod 8 is not zero. *)
Theorem grid_pages_partition {image : Type} (slide_images : list image) :
  slide_images <> [] ->
  let pages := create_layout_pdf slide_images in
  let N := length slide_images in
  length pages = (N + 7) / 8 /\
  (forall i x, nth_error slide_images i = Some x ->
     exists pg, nth_error pages (i / 8) = Some pg /\
                nth_error pg (i mod 8) = Some (i mod 8, x) /\
                fst (slot_row_col (i mod 8)) < 4 /\
                snd (slot_row_col (i mod 8)) < 2) /\
  (forall k pg, S k < length pages -> nth_error pages k = Some pg -> length pg = 8) /\
  (N mod 8 <> 0 ->
     exists pg, nth_error pages (length pages - 1) = Some pg /\ length pg = N mod 8).
Proof.
  intros Hne pages N. subst pages N.
  set (N := length slide_images). set (pages := create_layout_pdf slide_images).
  assert (Hpos : 0 < N) by (subst N; destruct slide_images; [congruence | simpl; lia]).
  destruct (ceil8_bounds N Hpos) as (H0 & Hlast & Hup).
  assert (Hlen : length pages = (N + 7) / 8).
  { subst pages. rewrite create_layout_pdf_groups by exact Hne.
    rewrite length_map, length_seq. reflexivity. }
  split; [exact Hlen | split; [| split]].
  - intros i x Hx.
    assert (Hi : i < N) by (apply nth_error_Some; congruence).
    pose proof (Nat.div_mod i 8 ltac:(lia)) as Hdm.
    pose proof (Nat.mod_upper_bound i 8 ltac:(lia)) as Hm.
    exists (grid_group slide_images (i / 8)). split; [|split; [|split]].
    + apply nth_error_grid_pages; [exact Hne | fold N; lia].
    + rewrite grid_group_nth by exact Hm. rewrite <- Hdm, Hx. reflexivity.
    + unfold slot_row_col. cbn [fst].
      pose proof (Nat.div_mod (i mod 8) 2 ltac:(lia)).
      pose proof (Nat.mod_upper_bound (i mod 8) 2 ltac:(lia)). lia.
    + unfold slot_row_col. cbn [snd]. apply Nat.mod_upper_bound. lia.
  - intros k pg Hk Hpg. rewrite Hlen in Hk.
    unfold pages in Hpg. rewrite nth_error_grid_pages in Hpg by (exact Hne || (fold N; lia)).
    injection Hpg as <-. rewrite grid_group_length. fold N. lia.
  - intro Hr. exists (grid_group slide_images ((N + 7) / 8 - 1)). split.
    + rewrite Hlen. unfold pages. apply nth_error_grid_pages; [exact Hne | fold N; lia].
    + rewrite grid_group_length. fold N.
      pose proof (Nat.div_mod N 8 ltac:(lia)).
      pose proof (Nat.mod_upper_bound N 8 ltac:(lia)).
      pose proof (Nat.div_mod (N + 7) 8 ltac:(lia)).
      pose proof (Nat.mod_upper_bound (N + 7) 8 ltac:(lia)).
      lia.
Qed.

End GridClaim.

(* ------------------------------------------------------------------ *)
(** ** The PDF merger ([PDFMerger.merge_pdfs_with_bookmarks]) *)

Module Merger.
Local Open Scope nat_scope.

(** A title as the code forms it: the caller's ['title'] or the default
    [f'文档{i + 1}']. *)
Inductive title_text :=
| Given (s : string)
| Default_doc (k : nat).

(** One caller record: ['file'], optional ['title'], optional ['order']. *)
Record pdf_info := {
  info_file : string;
  info_title : option string;
  info_order : option Z
}.

(** [lambda x: x.get('order', 0)]. *)
Definition sort_key (r : pdf_info) : Z :=
  match info_order r with Some z => z | None => 0%Z end.

(** [list.sort(key=...)] is a stable sort, so its result is the stable
    insertion sort by the key. *)
Fixpoint insert_by_key (r : pdf_info) (l : list pdf_info) : list pdf_info :=
  match l with
  | [] => [r]
  | y :: ys => if Z.leb (sort_key r) (sort_key y) then r :: y :: ys
               else y :: insert_by_key r ys
  end.

Definition py_sort_by_key (l : list pdf_info) : list pdf_info :=
  fold_right insert_by_key [] l.

(** What the file system holds at a path: nothing ([os.path.exists] is
    false), a file [fitz.open] fails on, or a PDF with its page count. The
    merge reads the same file system in both passes. *)
Inductive fs_entry :=
| Missing
| Unreadable
| Pdf (page_count : nat).

Record merge_env := {
  fs : string -> fs_entry;
  toc_ok : bool;     (* the TOC canvas is written and re-opened without error *)
  save_ok : bool     (* [output_doc.save(output_path)] succeeds *)
}.


(** The log records the merge emits, with their level. *)
Inductive log_entry :=
| LogStart (count : nat)
| LogPdfPages (index : nat) (title : title_text) (pages : nat)
| LogUnreadable (file : string)
| LogNoValid
| LogTotal (pages : nat)
| LogTocFailed
| LogMergeFileFailed (file : string)
| LogDone (pages : nat)
| LogMergeFailed.


(** An entry of [pdf_page_info]. *)
Record page_info := {
  pi_title : title_text;
  pi_file : string;
  pi_page_count : nat;
  pi_start_page_in_final : nat;
  pi_order : nat
}.

(** First pass: [for i, pdf_info in enumerate(pdf_info_list)], threading
    [total_content_pages]. *)
Fixpoint collect_pages (fsys : string -> fs_entry) (i : nat) (l : list pdf_info)
    (total_content_pages : nat) : list page_info * nat * list log_entry :=
  match l with
  | [] => ([], total_content_pages, [])
  | r :: rs =>
      let title := match info_title r with Some s => Given s | None => Default_doc (i + 1) end in
      match fsys (info_file r) with
      | Missing => collect_pages fsys (S i) rs total_content_pages
      | Unreadable =>
          let '(ps, t, lg) := collect_pages fsys (S i) rs total_content_pages in
          (ps, t, LogUnreadable (info_file r) :: lg)
      | Pdf n =>
          let p := {| pi_title := title; pi_file := info_file r; pi_page_count := n;
                      pi_start_page_in_final := total_content_pages + 2; pi_order := i |} in
          let '(ps, t, lg) := collect_pages fsys (S i) rs (total_content_pages + n) in
          (p :: ps, t, LogPdfPages (i + 1) title n :: lg)
      end
  end.

(** The TOC canvas ([_create_table_of_contents_pdf_with_accurate_pages]):
    [current_y] starts at [page_height - margin - 80]; after each entry it
    drops by [line_height = 25] and a new page is started when it falls
    below [margin + 50]. The count starts at the first page; each
    [showPage] starts another one, which [setFont] marks as drawn on, so
    [c.save()] emits it. *)
Fixpoint toc_layout (entries : list page_info) (current_y : Q) (pages : nat) : nat :=
  match entries with
  | [] => pages
  | _ :: es =>
      let y := (current_y - 25)%Q in
      if Qlt_bool y (50 + 50) then toc_layout es (A4_height - 50)%Q (S pages)
      else toc_layout es y pages
  end.

Definition toc_page_count (entries : list page_info) : nat :=
  toc_layout entries (A4_height - 50 - 80)%Q 1.

Record bookmark := {
  bm_title : title_text;
  bm_page : nat;   (* 0-based [current_page] *)
  bm_level : nat
}.

(** Second pass: concatenation, threading [current_page]. *)
Fixpoint concat_docs (fsys : string -> fs_entry) (infos : list page_info)
    (current_page : nat) : list bookmark * nat * list log_entry :=
  match infos with
  | [] => ([], current_page, [])
  | p :: ps =>
      match fsys (pi_file p) with
      | Pdf n =>
          let '(bs, cp, lg) := concat_docs fsys ps (current_page + n) in
          ({| bm_title := pi_title p; bm_page := current_page; bm_level := 1 |} :: bs, cp, lg)
      | _ =>
          let '(bs, cp, lg) := concat_docs fsys ps current_page in
          (bs, cp, LogMergeFileFailed (pi_file p) :: lg)
      end
  end.

Record final_document := {
  toc_pages : nat;
  total_pages : nat;
  outline : list (nat * title_text * nat)   (* [level, title, page + 1] *)
}.

Record merge_outcome := {
  caller_list : list pdf_info;      (* the caller's list object after the call *)
  returned : bool;
  written : option final_document;  (* the document saved at [output_path] *)
  printed_toc : list nat;           (* the "第 {start_page} 页" numbers of the TOC *)
  logs : list log_entry
}.

Definition merge_pdfs_with_bookmarks (env : merge_env) (pdf_info_list : list pdf_info)
    : merge_outcome :=
  let sorted := py_sort_by_key pdf_info_list in
  let lg0 := [LogStart (length pdf_info_list)] in
  let '(infos, total, lg1) := collect_pages (fs env) 0 sorted 0 in
  match infos with
  | [] => {| caller_list := sorted; returned := false; written := None;
             printed_toc := []; logs := lg0 ++ lg1 ++ [LogNoValid] |}
  | _ :: _ =>
      let toc := if toc_ok env then toc_page_count infos else 0 in
      let printed := if toc_ok env then map pi_start_page_in_final infos else [] in
      let lg_toc := if toc_ok env then [] else [LogTocFailed] in
      let '(bms, current_page, lg2) := concat_docs (fs env) infos toc in
      let doc := {| toc_pages := toc; total_pages := current_page;
                    outline := map (fun b => (bm_level b, bm_title b, bm_page b + 1)) bms |} in
      let lg := lg0 ++ lg1 ++ [LogTotal total] ++ lg_toc ++ lg2 in
      if save_ok env
      then {| caller_list := sorted; returned := true; written := Some doc;
              printed_toc := printed; logs := lg ++ [LogDone current_page] |}
      else {| caller_list := sorted; returned := false; written := None;
              printed_toc := printed; logs := lg ++ [LogMergeFailed] |}
  end.

(** The page counts of the documents the first pass can read, in merge order. *)
Definition readable_counts (fsys : string -> fs_entry) (l : list pdf_info) : list nat :=
  flat_map (fun r => match fsys (info_file r) with Pdf n => [n] | _ => [] end) l.

End Merger.

(* ------------------------------------------------------------------ *)
(** ** Facts about the merger *)

Module MergerFacts.
Import Merger.
Local Open Scope nat_scope.

(** Start pages [base], [base + n1], [base + n1 + n2], ... *)
Fixpoint prefix_starts (base : nat) (counts : list nat) : list nat :=
  match counts with
  | [] => []
  | n :: ns => base :: prefix_starts (base + n) ns
  end.

Lemma list_sum_cons (n : nat) (l : list nat) : list_sum (n :: l) = n + list_sum l.
Proof. reflexivity. Qed.

Lemma collect_pages_spec (fsys : string -> fs_entry) (l : list pdf_info) :
  forall i t,
  let '(ps, t', lg) := collect_pages fsys i l t in
  map pi_page_count ps = readable_counts fsys l /\
  map pi_start_page_in_final ps = prefix_starts (t + 2) (readable_counts fsys l) /\
  t' = t + list_sum (readable_counts fsys l) /\
  Forall (fun p => fsys (pi_file p) = Pdf (pi_page_count p)) ps /\
  (forall f, In (LogUnreadable f) lg <->
             exists r, In r l /\ info_file r = f /\ fsys f = Unreadable) /\
  (forall f, ~ In (LogMergeFileFailed f) lg).
Proof.
  induction l as [|r rs IH]; intros i t; cbn [collect_pages].
  - cbn. repeat split; try reflexivity; try lia; try constructor; firstorder.
  - destruct (fsys (info_file r)) as [| |n] eqn:E.
    + specialize (IH (S i) t).
      destruct (collect_pages fsys (S i) rs t) as [[ps t'] lg].
      destruct IH as (H1 & H2 & H3 & H4 & H5 & H6).
      cbn [readable_counts flat_map]. rewrite E. cbn [app].
      split; [exact H1|]. split; [exact H2|]. split; [exact H3|].
      split; [exact H4|]. split; [|exact H6].
      intro f. rewrite H5. split.
      * intros (r' & ? & ? & ?). exists r'. split; [right|]; auto.
      * intros (r' & [<-|Hin] & Hf & Hu).
        -- subst f. congruence.
        -- eauto.
    + specialize (IH (S i) t).
      destruct (collect_pages fsys (S i) rs t) as [[ps t'] lg].
      destruct IH as (H1 & H2 & H3 & H4 & H5 & H6).
      cbn [readable_counts flat_map]. rewrite E. cbn [app].
      split; [exact H1|]. split; [exact H2|]. split; [exact H3|].
      split; [exact H4|]. split.
      * intro f. split.
        -- intros [Heq|Hin].
           ++ injection Heq as Hf. exists r. split; [left; reflexivity|]. subst f. auto.
           ++ apply H5 in Hin. destruct Hin as (r' & ? & ? & ?).
              exists r'. split; [right|]; auto.
        -- intros (r' & [<-|Hin] & Hf & Hu).
           ++ subst f. left. reflexivity.
           ++ right. apply H5. eauto.
      * intros f [Heq|Hin]; [discriminate|]. exact (H6 f Hin).
    + specialize (IH (S i) (t + n)).
      destruct (collect_pages fsys (S i) rs (t + n)) as [[ps t'] lg].
      destruct IH as (H1 & H2 & H3 & H4 & H5 & H6).
      cbn [readable_counts flat_map]. rewrite E. cbn [app map prefix_starts].
      change (flat_map _ rs) with (readable_counts fsys rs).
      split; [rewrite H1; reflexivity|].
      split; [rewrite H2; do 2 f_equal; lia|].
      split; [rewrite H3, list_sum_cons; lia|].
      split; [constructor; [exact E | exact H4]|].
      split.
      * intro f. split.
        -- intros [Heq|Hin]; [discriminate|].
           apply H5 in Hin. destruct Hin as (r' & ? & ? & ?).
           exists r'. split; [right|]; auto.
        -- intros (r' & [<-|Hin] & Hf & Hu).
           ++ subst f. congruence.
           ++ right. apply H5. eauto.
      * intros f [Heq|Hin]; [discriminate|]. exact (H6 f Hin).
Qed.

Lemma concat_docs_spec (fsys : string -> fs_entry) (ps : list page_info) :
  Forall (fun p => fsys (pi_file p) = Pdf (pi_page_count p)) ps ->
  forall cp,
  let '(bs, cp', lg) := concat_docs fsys ps cp in
  map bm_page bs = prefix_starts cp (map pi_page_count ps) /\
  map bm_level bs = repeat 1 (length ps) /\
  cp' = cp + list_sum (map pi_page_count ps) /\
  lg = [].
Proof.
  induction 1 as [|p ps Hp Hps IH]; intro cp; cbn [concat_docs].
  - cbn. repeat split; lia.
  - rewrite Hp. specialize (IH (cp + pi_page_count p)).
    destruct (concat_docs fsys ps (cp + pi_page_count p)) as [[bs cp'] lg].
    destruct IH as (H1 & H2 & H3 & H4).
    cbn [map prefix_starts length repeat].
    repeat split.
    + rewrite H1. reflexivity.
    + rewrite H2. reflexivity.
    + rewrite H3, list_sum_cons. lia.
    + exact H4.
Qed.

Lemma prefix_starts_succ (b : nat) (counts : list nat) :
  map S (prefix_starts b counts) = prefix_starts (S b) counts.
Proof.
  revert b. induction counts as [|n ns IH]; intro b; cbn; [reflexivity|].
  rewrite IH. reflexivity.
Qed.

Lemma toc_layout_length (es es' : list page_info) (y : Q) (p : nat) :
  length es = length es' -> toc_layout es y p = toc_layout es' y p.
Proof.
  revert es' y p. induction es as [|e es IH]; intros [|e' es'] y p H;
    cbn in H; try discriminate; cbn; [reflexivity|].
  destruct (Qlt_bool (y - 25) (50 + 50)); apply IH; lia.
Qed.

(** What one merge run does, in terms of the readable page counts. *)
Lemma merge_spec (env : merge_env) (l : list pdf_info) :
  let sorted := py_sort_by_key l in
  let counts := readable_counts (fs env) sorted in
  let o := merge_pdfs_with_bookmarks env l in
  caller_list o = sorted /\
  (returned o = true <-> counts <> [] /\ save_ok env = true) /\
  (returned o = true <-> exists d, written o = Some d) /\
  printed_toc o = (if toc_ok env then prefix_starts 2 counts else []) /\
  (forall d, written o = Some d ->
     (exists infos, length infos = length counts /\
        toc_pages d = (if toc_ok env then toc_page_count infos else 0)) /\
     total_pages d = toc_pages d + list_sum counts /\
     map snd (outline d) = prefix_starts (S (toc_pages d)) counts) /\
  (forall f, In (LogUnreadable f) (logs o) <->
             exists r, In r sorted /\ info_file r = f /\ fs env f = Unreadable) /\
  (forall f, ~ In (LogMergeFileFailed f) (logs o)).
Proof.
  intros sorted counts o. subst o.
  unfold merge_pdfs_with_bookmarks. fold sorted.
  pose proof (collect_pages_spec (fs env) sorted 0 0) as HC.
  destruct (collect_pages (fs env) 0 sorted 0) as [[infos total] lg1].
  destruct HC as (H1 & H2 & H3 & H4 & H5 & H6).
  fold counts in H1, H2, H3, H5.
  destruct infos as [|p ps].
  - cbn in H1. rewrite <- H1. cbn [returned written printed_toc caller_list logs].
    split; [reflexivity|]. split; [split; [discriminate | intros [[] _]; reflexivity]|].
    split; [split; [discriminate | intros [d Hd]; discriminate]|].
    split; [destruct (toc_ok env); reflexivity|].
    split; [intros d Hd; discriminate|].
    split.
    + intro f. rewrite <- H5. rewrite !in_app_iff. cbn. intuition congruence.
    + intros f. rewrite !in_app_iff. cbn. intuition (try congruence; eauto).
  - set (toc := if toc_ok env then toc_page_count (p :: ps) else 0).
    pose proof (concat_docs_spec (fs env) (p :: ps) H4 toc) as HD.
    destruct (concat_docs (fs env) (p :: ps) toc) as [[bms cp] lg2].
    destruct HD as (D1 & D2 & D3 & D4). subst lg2.
    rewrite H1 in D1, D3.
    assert (Hne : counts <> []) by (rewrite <- H1; discriminate).
    assert (Hpr : (if toc_ok env then map pi_start_page_in_final (p :: ps) else []) =
                  (if toc_ok env then prefix_starts 2 counts else [])).
    { destruct (toc_ok env); [rewrite H2; reflexivity | reflexivity]. }
    assert (Hout : map snd (map (fun b => (bm_level b, bm_title b, bm_page b + 1)) bms) =
                   prefix_starts (S toc) counts).
    { rewrite map_map. cbn [snd].
      rewrite (map_ext _ (fun b => S (bm_page b))) by (intro; lia).
      rewrite <- map_map, D1. apply prefix_starts_succ. }
    destruct (save_ok env) eqn:Es; cbn [returned written printed_toc caller_list logs].
    + split; [reflexivity|]. split; [tauto|]. split; [split; [eauto | reflexivity]|].
      split; [exact Hpr|]. split.
      * intros d Hd. injection Hd as <-. cbn [toc_pages total_pages outline].
        split; [exists (p :: ps); split; [rewrite <- H1, length_map; reflexivity | reflexivity]|].
        split; [exact D3 | exact Hout].
      * split.
        -- intro f. rewrite <- H5, !in_app_iff.
           destruct (toc_ok env); cbn; intuition congruence.
        -- intro f. pose proof (H6 f). rewrite !in_app_iff.
           destruct (toc_ok env); cbn; intuition congruence.
    + split; [reflexivity|]. split; [split; [discriminate | intros [_ ?]; discriminate]|].
      split; [split; [discriminate | intros [d Hd]; discriminate]|].
      split; [exact Hpr|]. split; [intros d Hd; discriminate|]. split.
      * intro f. rewrite <- H5, !in_app_iff.
        destruct (toc_ok env); cbn; intuition congruence.
      * intro f. pose proof (H6 f). rewrite !in_app_iff.
        destruct (toc_ok env); cbn; intuition congruence.
Qed.







(** Properties of the stable sort. *)
Lemma insert_by_key_perm (r : pdf_info) (l : list pdf_info) :
  Permutation (r :: l) (insert_by_key r l).
Proof.
  induction l as [|y ys IH]; cbn; [reflexivity|].
  destruct (Z.leb (sort_key r) (sort_key y)); [reflexivity|].
  rewrite perm_swap. constructor. exact IH.
Qed.

Lemma py_sort_by_key_perm (l : list pdf_info) : Permutation l (py_sort_by_key l).
Proof.
  induction l as [|r l IH]; cbn; [reflexivity|].
  rewrite <- insert_by_key_perm. constructor. exact IH.
Qed.

Definition key_le (a b : pdf_info) : Prop := (sort_key a <= sort_key b)%Z.

Lemma insert_by_key_sorted (r : pdf_info) (l : list pdf_info) :
  Sorted key_le l -> Sorted key_le (insert_by_key r l).
Proof.
  induction 1 as [|y ys Hys IH Hhd]; cbn.
  - repeat constructor.
  - destruct (Z.leb (sort_key r) (sort_key y)) eqn:E.
    + apply Z.leb_le in E. constructor; [constructor; assumption | constructor; exact E].
    + apply Z.leb_gt in E. constructor; [exact IH|].
      destruct ys as [|z zs]; cbn.
      * constructor. unfold key_le. lia.
      * inversion Hhd; subst.
        destruct (Z.leb (sort_key r) (sort_key z)); constructor; unfold key_le in *; lia.
Qed.

Lemma py_sort_by_key_sorted (l : list pdf_info) : Sorted key_le (py_sort_by_key l).
Proof.
  induction l as [|r l IH]; cbn; [constructor|]. apply insert_by_key_sorted. exact IH.
Qed.

Lemma insert_by_key_filter (k : Z) (r : pdf_info) (l : list pdf_info) :
  filter (fun x => Z.eqb (sort_key x) k) (insert_by_key r l) =
  filter (fun x => Z.eqb (sort_key x) k) (r :: l).
Proof.
  induction l as [|y ys IH]; cbn; [reflexivity|].
  destruct (Z.leb (sort_key r) (sort_key y)) eqn:E; [reflexivity|].
  cbn. rewrite IH. cbn.
  apply Z.leb_gt in E.
  destruct (Z.eqb (sort_key r) k) eqn:Er, (Z.eqb (sort_key y) k) eqn:Ey; try reflexivity.
  apply Z.eqb_eq in Er, Ey. lia.
Qed.

Lemma py_sort_by_key_stable (k : Z) (l : list pdf_info) :
  filter (fun x => Z.eqb (sort_key x) k) (py_sort_by_key l) =
  filter (fun x => Z.eqb (sort_key x) k) l.
Proof.
  induction l as [|r l IH]; cbn [py_sort_by_key fold_right]; [reflexivity|].
  fold (py_sort_by_key l). rewrite insert_by_key_filter. cbn.
  rewrite IH. reflexivity.
Qed.

End MergerFacts.

(* ------------------------------------------------------------------ *)
(** ** Merger claims *)

Module MergerClaims.
Import Merger MergerFacts.
Local Open Scope nat_scope.
Local Open Scope string_scope.

(** Every listed file is a one-page PDF. *)
Definition env_one_page_pdfs : merge_env :=
  {| fs := fun _ => Pdf 1; toc_ok := true; save_ok := true |}.

Definition doc_a : pdf_info :=
  {| info_file := "a.pdf"; info_title := None; info_order := None |}.




(** Claim C1 (failing input, a defect of the code): with 26 one-page
    documents the TOC takes two pages.  The TOC prints 2 as the first
    document's start page, while that document starts on page 3 of the
    merged file (its bookmark target): pass 1 adds a fixed one-page TOC
    offset instead of the TOC's page count, so every printed page number is
    one too small. *)
Lemma toc_overflow_start_pages_wrong :
  let o := merge_pdfs_with_bookmarks env_one_page_pdfs (repeat doc_a 26) in
  exists d, written o = Some d /\ toc_pages d = 2 /\
    hd_error (printed_toc o) = Some 2 /\ 2 <> 1 + 0 /\
    hd_error (map snd (outline d)) = Some 3.
Proof.
  vm_compute. eexists. split; [reflexivity|]. vm_compute.
  repeat split; discriminate.
Qed.



(** Claim C2 (failing input, a defect of the code): with 26 one-page
    documents the TOC takes two pages and the merged file has 28 pages, but
    the last document's printed start page + page count - 1 is 27. *)
Lemma toc_overflow_last_page_mismatch :
  let o := merge_pdfs_with_bookmarks env_one_page_pdfs (repeat doc_a 26) in
  let counts := readable_counts (fs env_one_page_pdfs) (py_sort_by_key (repeat doc_a 26)) in
  exists d, written o = Some d /\
    last (printed_toc o) 0 + last counts 0 - 1 = 27 /\ total_pages d = 28.
Proof.
  vm_compute. eexists. split; [reflexivity|]. vm_compute. split; reflexivity.
Qed.





(** Claim C10: the merge sorts the caller's list in place by
    [x.get('order', 0)], stably, whatever the outcome of the run: afterwards
    the caller's list holds the same records (a permutation), ordered by
    key, with records of equal key in their original relative order. *)
Theorem merge_sorts_caller_list (env : merge_env) (l : list pdf_info) :
  let caller := caller_list (merge_pdfs_with_bookmarks env l) in
  caller = py_sort_by_key l /\
  Permutation l caller /\
  Sorted key_le caller /\
  (forall k, filter (fun x => Z.eqb (sort_key x) k) caller =
             filter (fun x => Z.eqb (sort_key x) k) l).
Proof.
  intro caller.
  destruct (merge_spec env l) as (Hc & _). fold caller in Hc. rewrite Hc.
  split; [reflexivity|]. split; [apply py_sort_by_key_perm|].
  split; [apply py_sort_by_key_sorted | intro k; apply py_sort_by_key_stable].
Qed.

End MergerClaims.

(* ------------------------------------------------------------------ *)
(** ** Footer page numbers ([PDFMerger._add_bottom_page_numbers]) *)

Module Footer.
Local Open Scope string_scope.

(** [str(n)] for a natural number. *)
Fixpoint str_nat_aux (fuel n : nat) (acc : string) : string :=
  match fuel with
  | O => acc
  | S f =>
      let acc' := String (ascii_of_nat (48 + Nat.modulo n 10)) acc in
      if Nat.ltb n 10 then acc' else str_nat_aux f (Nat.div n 10) acc'
  end.

Definition str_nat (n : nat) : string := str_nat_aux (S n) n EmptyString.

(** [page.rect] of a page of the merged document. *)
Record page_rect := {
  rect_width : Q;
  rect_height : Q
}.

(** The arguments of one [page.insert_text] call (PyMuPDF coordinates: origin
    at the top-left corner, [y] growing downwards). *)
Record text_insert := {
  ins_x : Q;
  ins_y : Q;
  ins_text : string;
  ins_fontsize : Q;
  ins_fontname : string
}.

Definition footer_for (page_num : nat) (rect : page_rect) : text_insert :=
  let page_text := "- " ++ str_nat (page_num + 1) ++ " -" in
  let text_width_estimate := inject_Z (Z.of_nat (String.length page_text) * 5) in
  {| ins_x := (rect_width rect - text_width_estimate) / 2;
     ins_y := rect_height rect - 40;
     ins_text := page_text;
     ins_fontsize := 10;
     ins_fontname := "helv" |}.

(** [for page_num in range(doc.page_count)], over all pages of the merged
    document (TOC pages included). *)
Definition add_bottom_page_numbers (pages : list page_rect) : list text_insert :=
  map (fun '(k, r) => footer_for k r) (enumerate pages).

(** Advance widths of the standard Helvetica font (AFM units per 1000 em)
    for the characters a footer uses; [None] for the others. *)
Definition helvetica_char_width (c : ascii) : option Q :=
  if Ascii.eqb c "-" then Some 333
  else if Ascii.eqb c " " then Some 278
  else let n := nat_of_ascii c in
       if andb (Nat.leb 48 n) (Nat.leb n 57) then Some 556 else None.

Fixpoint helvetica_units (s : string) : option Q :=
  match s with
  | EmptyString => Some 0
  | String c s' =>
      match helvetica_char_width c, helvetica_units s' with
      | Some w, Some t => Some (w + t)
      | _, _ => None
      end
  end.

(** [stringWidth(s, "Helvetica", size)]: the measured width in points. *)
Definition helvetica_string_width (s : string) (size : Q) : option Q :=
  option_map (fun u => u * size / 1000) (helvetica_units s).

End Footer.

(* ------------------------------------------------------------------ *)
(** ** Post-merge optimisation ([PDFMerger.optimize_pdf]) and the end of
       [PPTConverterThread.run] *)

Module Optimizer.
Local Open Scope string_scope.










End Optimizer.

(* ------------------------------------------------------------------ *)
(** ** Footer and optimisation claims *)

Module FooterClaims.
Import Footer.
Local Open Scope string_scope.

(** Claim C9 (counterexample): on an A4 page the footer of page 1 is
    ["- 1 -"], drawn in PyMuPDF's built-in ["helv"] whatever font the run
    resolved, and placed with the estimate 5 pt per character (25 pt).
    Measured in Helvetica, the font the layout generators fall back to when
    no CJK font is found, the text is 17.78 pt wide, and the footer is not
    centred for that width. *)
Lemma footer_centered_by_estimate :
  let f := footer_for 0 {| rect_width := A4_width; rect_height := A4_height |} in
  ins_text f = "- 1 -" /\ ins_fontname f = "helv" /\
  exists w, helvetica_string_width (ins_text f) (ins_fontsize f) = Some w /\
    w == 1778 # 100 /\
    ins_x f == (A4_width - 25) / 2 /\
    ~ (ins_x f == (A4_width - w) / 2).
Proof.
  vm_compute. split; [reflexivity|]. split; [reflexivity|].
  eexists. split; [reflexivity|]. vm_compute.
  split; [reflexivity|]. split; [reflexivity|]. discriminate.
Qed.

(** Claim C9 (as amended): every page k (0-based) of the merged document
    gets one footer ["- {k + 1} -"], in the built-in font ["helv"] at size 10,
    with its left end at (page width - 5 x number of characters) / 2 (a
    character-count estimate of the width, not a measurement) and its
    baseline 40 pt above the bottom edge. *)
Theorem footer_on_every_page (pages : list page_rect) :
  length (add_bottom_page_numbers pages) = length pages /\
  (forall k r, nth_error pages k = Some r ->
     exists f, nth_error (add_bottom_page_numbers pages) k = Some f /\
       ins_text f = "- " ++ str_nat (k + 1) ++ " -" /\
       ins_x f == (rect_width r - 5 * inject_Z (Z.of_nat (String.length (ins_text f)))) / 2 /\
       ins_y f == rect_height r - 40 /\
       ins_fontsize f == 10 /\ ins_fontname f = "helv").
Proof.
  unfold add_bottom_page_numbers. split.
  - rewrite length_map. unfold enumerate.
    rewrite length_combine, length_seq, Nat.min_id. reflexivity.
  - intros k r Hr. rewrite nth_error_map, enumerate_nth, Hr. cbn [option_map].
    eexists. split; [reflexivity|]. unfold footer_for. cbn [ins_text ins_x ins_y ins_fontsize ins_fontname].
    split; [reflexivity|]. split; [|split; [reflexivity | split; reflexivity]].
    rewrite inject_Z_mult, Qmult_comm. reflexivity.
Qed.

End FooterClaims.

Module OptimizerClaims.
Import Optimizer.
Local Open Scope string_scope.







End OptimizerClaims.

(** Witness for claim C4: a 4000 x 3000 slide in slot 0 of the A4 grid. *)
Lemma aspect_fit_inside_centered_witness :
  (0 < slot_width /\ 0 < slot_height /\ (0 < 4000)%Z /\ (0 < 3000)%Z) /\
  (let pl := aspect_fit 36 (A4_height - 36 - (slot_height + 12)) slot_width slot_height
               4000 3000 in
   (36 <= img_x pl /\ img_x pl + display_width pl <= 36 + slot_width /\
    A4_height - 36 - (slot_height + 12) <= img_y pl /\
    img_y pl + display_height pl <= A4_height - 36 - (slot_height + 12) + slot_height) /\
   (0 < display_width pl /\ 0 < display_height pl) /\
   (if Qlt_bool (slot_width / slot_height) (inject_Z 4000 / inject_Z 3000)
    then display_width pl == slot_width else display_height pl == slot_height) /\
   display_width pl * inject_Z 3000 == display_height pl * inject_Z 4000 /\
   img_x pl - 36 == (36 + slot_width) - (img_x pl + display_width pl) /\
   img_y pl - (A4_height - 36 - (slot_height + 12)) ==
     (A4_height - 36 - (slot_height + 12) + slot_height) - (img_y pl + display_height pl)).
Proof.
  assert (Hw : 0 < slot_width) by (vm_compute; reflexivity).
  assert (Hh : 0 < slot_height) by (vm_compute; reflexivity).
  assert (H4 : (0 < 4000)%Z) by reflexivity.
  assert (H3 : (0 < 3000)%Z) by reflexivity.
  split; [split; [exact Hw | split; [exact Hh | split; [exact H4 | exact H3]]]|].
  exact (aspect_fit_inside_centered 36 (A4_height - 36 - (slot_height + 12))
           slot_width slot_height 4000 3000 Hw Hh H4 H3).
Defined.

(** Witness for claim C3: ten slide images give two pages, of 8 and 2. *)
Lemma grid_pages_partition_witness :
  seq 0 10 <> [] /\
  (let pages := create_layout_pdf (seq 0 10) in
   let N := length (seq 0 10) in
   length pages = (N + 7) / 8 /\
   (forall i x, nth_error (seq 0 10) i = Some x ->
      exists pg, nth_error pages (i / 8) = Some pg /\
                 nth_error pg (i mod 8) = Some (i mod 8, x) /\
                 fst (slot_row_col (i mod 8)) < 4 /\
                 snd (slot_row_col (i mod 8)) < 2) /\
   (forall k pg, S k < length pages -> nth_error pages k = Some pg -> length pg = 8) /\
   (N mod 8 <> 0 ->
      exists pg, nth_error pages (length pages - 1) = Some pg /\ length pg = N mod 8))%nat.
Proof.
  assert (Hne : seq 0 10 <> []) by discriminate.
  split; [exact Hne | exact (grid_pages_partition (seq 0 10) Hne)].
Defined.

(* ------------------------------------------------------------------ *)
(** ** The page-image layout of [PDFLayoutGenerator]
       ([_create_layout_pdf_from_images]) *)

Section PdfLayoutRenderer.
Variable image : Type.
Local Open Scope nat_scope.

Definition pages_per_layout_page : nat := 8.

(** One iteration of [for page_start in range(0, len(image_list), 8)]:
    each page image is drawn at its slot together with the page number
    [page_start + position + 1] its label ["p.{page_number}"] shows. *)
Definition render_layout_group (image_list : list image) (c : canvas (nat * image))
    (page_start : nat) : canvas (nat * image) :=
  let c := if 0 <? page_start then showPage _ c else c in
  let layout_pages := py_slice image_list page_start (page_start + pages_per_layout_page) in
  fold_left (fun c '(position, image_path) =>
               draw_at _ c (position, (page_start + position + 1, image_path)))
            (enumerate layout_pages) c.

Definition create_layout_pdf_from_images (image_list : list image)
    : list (list (nat * (nat * image))) :=
  save _ (fold_left (render_layout_group image_list)
            (py_range 0 (length image_list) pages_per_layout_page) (empty_canvas _)).

End PdfLayoutRenderer.

Arguments create_layout_pdf_from_images {image} image_list.

(** The rectangle [rect(slot_x, slot_y, slot_width, slot_height)] of a slot
    (PDF coordinates, origin at the bottom-left corner). *)
Definition slot_rect (position : nat) : Q * Q * Q * Q :=
  let '(x, y) := calculate_slot_position slot_width slot_height position in
  (x, y, x + slot_width, y + slot_height).

(** Two rectangles [(x0, y0, x1, y1)] share no interior point. *)
Definition rects_disjoint (a b : Q * Q * Q * Q) : bool :=
  let '(ax0, ay0, ax1, ay1) := a in
  let '(bx0, by0, bx1, by1) := b in
  Qle_bool ax1 bx0 || Qle_bool bx1 ax0 || Qle_bool ay1 by0 || Qle_bool by1 ay0.

(** A rectangle lies within [x0 <= x <= x1], [y0 <= y <= y1]. *)
Definition rect_within (r : Q * Q * Q * Q) (x0 y0 x1 y1 : Q) : bool :=
  let '(rx0, ry0, rx1, ry1) := r in
  Qle_bool x0 rx0 && Qle_bool y0 ry0 && Qle_bool rx1 x1 && Qle_bool ry1 y1.

Section GridExtraFacts.
Context {image : Type}.
Local Open Scope nat_scope.

Lemma fold_draw_numbered (es : list (nat * image)) (s : nat) (c : canvas (nat * image)) :
  fold_left (fun c '(position, image_path) =>
               draw_at _ c (position, (s + position + 1, image_path))) es c =
  {| emitted := emitted _ c;
     current := current _ c ++ map (fun '(p, x) => (p, (s + p + 1, x))) es |}.
Proof.
  revert c. induction es as [|[p x] es IH]; intro c; simpl.
  - rewrite app_nil_r. destruct c; reflexivity.
  - rewrite IH. simpl. rewrite <- app_assoc. reflexivity.
Qed.

Definition number_group (k : nat) (g : list (nat * image)) : list (nat * (nat * image)) :=
  map (fun '(p, x) => (p, (8 * k + p + 1, x))) g.

Lemma fold_render_layout_groups (l : list image) (m : nat) :
  fold_left (render_layout_group image l) (map (fun k => 8 * k) (seq 0 (S m)))
    (empty_canvas _) =
  {| emitted := map (fun k => number_group k (grid_group l k)) (seq 0 m);
     current := number_group m (grid_group l m) |}.
Proof.
  induction m as [|m IH].
  - cbn [seq map fold_left]. unfold render_layout_group. cbv zeta.
    replace (0 <? 8 * 0) with false by reflexivity.
    rewrite fold_draw_numbered. reflexivity.
  - rewrite seq_S, map_app, fold_left_app, IH, Nat.add_0_l. cbn [map fold_left].
    unfold render_layout_group. cbv zeta.
    replace (0 <? 8 * S m) with true by (symmetry; apply Nat.ltb_lt; lia).
    rewrite fold_draw_numbered. cbn [showPage emitted current app].
    rewrite (seq_S m 0), map_app, Nat.add_0_l. f_equal.
    unfold py_slice, grid_group, number_group.
    replace (8 * S m + pages_per_layout_page - 8 * S m) with 8
      by (unfold pages_per_layout_page; lia).
    reflexivity.
Qed.

Lemma create_layout_pdf_from_images_groups (l : list image) :
  l <> [] ->
  create_layout_pdf_from_images l =
  map (fun k => number_group k (grid_group l k)) (seq 0 ((length l + 7) / 8)).
Proof.
  intro Hne.
  assert (Hpos : 0 < length l) by (destruct l; [congruence | simpl; lia]).
  destruct (ceil8_bounds (length l) Hpos) as (H0 & Hlast & _).
  unfold create_layout_pdf_from_images.
  change pages_per_layout_page with 8. rewrite py_range_0_step8.
  destruct ((length l + 7) / 8) as [|m] eqn:E; [lia|].
  rewrite fold_render_layout_groups. unfold save. cbn [current emitted showPage].
  rewrite (seq_S m 0), map_app, Nat.add_0_l.
  unfold number_group at 1.
  destruct (grid_group l m) as [|e es] eqn:G.
  - exfalso. pose proof (grid_group_length l m) as HL. rewrite G in HL.
    cbn [length] in HL. replace (S m - 1) with m in Hlast by lia. lia.
  - cbn [map]. rewrite G. reflexivity.
Qed.

Lemma map_snd_enumerate_from {A} (l : list A) (s : nat) :
  map snd (combine (seq s (length l)) l) = l.
Proof.
  revert s. induction l as [|x l IH]; intro s; simpl; [reflexivity|].
  rewrite IH. reflexivity.
Qed.

Lemma map_fst_enumerate_from {A} (l : list A) (s : nat) :
  map fst (combine (seq s (length l)) l) = seq s (length l).
Proof.
  revert s. induction l as [|x l IH]; intro s; simpl; [reflexivity|].
  rewrite IH. reflexivity.
Qed.

Lemma firstn_add {A} (a b : nat) (l : list A) :
  firstn (a + b) l = firstn a l ++ firstn b (skipn a l).
Proof.
  revert l. induction a as [|a IH]; intro l; simpl; [reflexivity|].
  destruct l as [|x l]; simpl.
  - destruct b; reflexivity.
  - rewrite IH. reflexivity.
Qed.

Lemma concat_groups (l : list image) (m : nat) :
  concat (map (fun k => map snd (grid_group l k)) (seq 0 m)) = firstn (8 * m) l.
Proof.
  induction m as [|m IH]; [reflexivity|].
  rewrite seq_S, map_app, concat_app, IH. cbn [map concat].
  rewrite app_nil_r, Nat.add_0_l. unfold grid_group, enumerate.
  rewrite map_snd_enumerate_from.
  replace (8 * S m) with (8 * m + 8) by lia. rewrite firstn_add. reflexivity.
Qed.

Lemma map_add_seq (a s n : nat) :
  map (fun p => a + p) (seq s n) = seq (a + s) n.
Proof.
  revert s. induction n as [|n IH]; intro s; simpl; [reflexivity|].
  rewrite IH. f_equal. f_equal. lia.
Qed.

Lemma concat_group_labels (l : list image) (m : nat) :
  8 * m <= length l + 7 ->
  concat (map (fun k => map (fun e => fst (snd e)) (number_group k (grid_group l k)))
              (seq 0 m)) = seq 1 (Nat.min (8 * m) (length l)).
Proof.
  induction m as [|m IH]; intro Hm; [reflexivity|].
  rewrite seq_S, map_app, concat_app, IH by lia. cbn [map concat].
  rewrite app_nil_r, Nat.add_0_l.
  unfold number_group, grid_group, enumerate. rewrite map_map.
  set (g := firstn 8 (skipn (8 * m) l)).
  assert (Hg : length g = Nat.min 8 (length l - 8 * m))
    by (unfold g; rewrite length_firstn, length_skipn; reflexivity).
  replace (map (fun x => fst (snd (let '(p, x0) := x in (p, (8 * m + p + 1, x0)))))
               (combine (seq 0 (length g)) g))
    with (map (fun p => 8 * m + p + 1) (map fst (combine (seq 0 (length g)) g)))
    by (rewrite map_map; apply map_ext; intros [p x]; reflexivity).
  rewrite map_fst_enumerate_from.
  assert (Hmin : Nat.min (8 * m) (length l) = 8 * m) by lia.
  rewrite Hmin.
  replace (map (fun p => 8 * m + p + 1) (seq 0 (length g)))
    with (seq (1 + 8 * m) (length g)).
  2:{ rewrite <- (Nat.add_0_r (1 + 8 * m)) at 1. rewrite <- map_add_seq.
      apply map_ext. intro p. lia. }
  rewrite <- seq_app, Hg. f_equal. lia.
Qed.
End GridExtraFacts.

(** ** Further properties of the layout generators *)

Section GridExtras.
Local Open Scope nat_scope.

(** The slide grid renderer loses, duplicates and reorders nothing: reading
    the output pages in order, slot by slot, gives back the input images,
    and each page fills its slots 0, 1, 2, ... without a gap. *)
Theorem grid_pages_read_back {image : Type} (slide_images : list image) :
  slide_images <> [] ->
  concat (map (map snd) (create_layout_pdf slide_images)) = slide_images /\
  Forall (fun pg => map fst pg = seq 0 (length pg)) (create_layout_pdf slide_images).
Proof.
  intro Hne.
  assert (Hpos : 0 < length slide_images) by (destruct slide_images; [congruence | simpl; lia]).
  destruct (ceil8_bounds (length slide_images) Hpos) as (_ & _ & Hup).
  rewrite create_layout_pdf_groups by exact Hne. split.
  - rewrite map_map, concat_groups. apply firstn_all2. lia.
  - apply Forall_forall. intros pg Hin. apply in_map_iff in Hin as (k & <- & _).
    unfold grid_group, enumerate. rewrite map_fst_enumerate_from, length_combine,
      length_seq, Nat.min_id. reflexivity.
Qed.

Lemma grid_pages_read_back_witness :
  [10; 20; 30] <> [] /\
  concat (map (map snd) (create_layout_pdf [10; 20; 30])) = [10; 20; 30] /\
  Forall (fun pg => map fst pg = seq 0 (length pg)) (create_layout_pdf [10; 20; 30]).
Proof.
  assert (Hne : [10; 20; 30] <> []) by discriminate.
  split; [exact Hne | exact (grid_pages_read_back [10; 20; 30] Hne)].
Defined.

(** [PDFLayoutGenerator] lays page images out exactly as the slide
    generator lays slides out (same pages, same slots), and the label it
    draws under the image at index i of the input is [p.{i + 1}]: read page
    by page, the labels are 1, 2, ..., N, continuing across layout pages. *)
Theorem pdf_layout_labels_continuous {image : Type} (image_list : list image) :
  image_list <> [] ->
  map (map (fun e => (fst e, snd (snd e)))) (create_layout_pdf_from_images image_list) =
    create_layout_pdf image_list /\
  concat (map (map (fun e => fst (snd e))) (create_layout_pdf_from_images image_list)) =
    seq 1 (length image_list).
Proof.
  intro Hne.
  assert (Hpos : 0 < length image_list) by (destruct image_list; [congruence | simpl; lia]).
  destruct (ceil8_bounds (length image_list) Hpos) as (_ & _ & Hup).
  rewrite create_layout_pdf_from_images_groups, create_layout_pdf_groups by exact Hne.
  split.
  - rewrite map_map. apply map_ext. intro k. unfold number_group. rewrite map_map.
    rewrite <- (map_id (grid_group image_list k)) at 2.
    apply map_ext. intros [p x]. reflexivity.
  - rewrite map_map, concat_group_labels.
    + f_equal. lia.
    + pose proof (Nat.div_mod (length image_list + 7) 8 ltac:(lia)).
      pose proof (Nat.mod_upper_bound (length image_list + 7) 8 ltac:(lia)). lia.
Qed.

Lemma pdf_layout_labels_continuous_witness :
  seq 0 9 <> [] /\
  map (map (fun e => (fst e, snd (snd e)))) (create_layout_pdf_from_images (seq 0 9)) =
    create_layout_pdf (seq 0 9) /\
  concat (map (map (fun e => fst (snd e))) (create_layout_pdf_from_images (seq 0 9))) =
    seq 1 (length (seq 0 9)).
Proof.
  assert (Hne : seq 0 9 <> []) by discriminate.
  split; [exact Hne | exact (pdf_layout_labels_continuous (seq 0 9) Hne)].
Defined.

End GridExtras.

(** The eight slots of an A4 grid page are pairwise disjoint and lie within
    the 36 pt margins at the left, right and top; the bottom row stops 64 pt
    above the bottom edge, clear of the merger's footer, whose baseline is
    40 pt above the bottom edge with 10 pt text. *)
Theorem grid_slots_disjoint_within_page :
  (forall p q, (p < 8)%nat -> (q < 8)%nat -> p <> q ->
     rects_disjoint (slot_rect p) (slot_rect q) = true) /\
  (forall p, (p < 8)%nat -> rect_within (slot_rect p) 36 64 (A4_width - 36) (A4_height - 36) = true) /\
  (forall k w h, h - Footer.ins_y (Footer.footer_for k {| Footer.rect_width := w; Footer.rect_height := h |}) == 40) /\
  40 + 10 < 64.
Proof.
  assert (Hd : forallb (fun p => forallb (fun q => Nat.eqb p q || rects_disjoint (slot_rect p) (slot_rect q))
                          (seq 0 8)) (seq 0 8) = true) by (vm_compute; reflexivity).
  assert (Hw : forallb (fun p => rect_within (slot_rect p) 36 64 (A4_width - 36) (A4_height - 36))
                 (seq 0 8) = true) by (vm_compute; reflexivity).
  rewrite forallb_forall in Hd, Hw.
  split; [|split; [|split]].
  - intros p q Hp Hq Hpq.
    assert (Hp' : In p (seq 0 8)) by (apply in_seq; lia).
    assert (Hq' : In q (seq 0 8)) by (apply in_seq; lia).
    specialize (Hd p Hp'). rewrite forallb_forall in Hd. specialize (Hd q Hq').
    apply orb_prop in Hd as [E|E]; [apply Nat.eqb_eq in E; contradiction | exact E].
  - intros p Hp. apply Hw, in_seq. lia.
  - intros k w h. unfold Footer.footer_for. simpl. ring.
  - reflexivity.
Qed.

(* ------------------------------------------------------------------ *)
(** ** The TOC renderer: page breaks and dot leaders *)

Module TocRenderer.
Import Merger.

(** [_draw_dots_reportlab]: after the early [return] when
    [start_x >= end_x], [while x < end_x: circle(x, ...); x += 4].  The loop
    runs at most [ceil((end_x - start_x) / 4)] times, so [fuel] (that bound
    plus one) never runs out; the dots are listed by their x positions. *)
Fixpoint dots_loop (fuel : nat) (x end_x : Q) : list Q :=
  match fuel with
  | O => []
  | S f => if Qlt_bool x end_x then x :: dots_loop f (x + 4) end_x else []
  end.

Definition dot_spacing : Q := 4.

Definition draw_dots_reportlab (start_x end_x : Q) : list Q :=
  if Qle_bool end_x start_x then []
  else dots_loop (S (Z.to_nat (Qceiling ((end_x - start_x) / dot_spacing)))) start_x end_x.

(** [toc_layout] with only the number of entries left. *)
Fixpoint toc_layout_n (n : nat) (current_y : Q) (pages : nat) : nat :=
  match n with
  | O => pages
  | S n =>
      let y := (current_y - 25)%Q in
      if Qlt_bool y (50 + 50) then toc_layout_n n (A4_height - 50)%Q (S pages)
      else toc_layout_n n y pages
  end.

Section TocFacts.
Local Open Scope nat_scope.

Lemma toc_layout_as_n (es : list page_info) (y : Q) (p : nat) :
  toc_layout es y p = toc_layout_n (length es) y p.
Proof.
  revert y p. induction es as [|e es IH]; intros y p; simpl; [reflexivity|].
  destruct (Qlt_bool _ _); apply IH.
Qed.

Lemma toc_later_short (m p : nat) :
  m < 28 -> toc_layout_n m (A4_height - 50)%Q p = p.
Proof.
  intro H. do 28 (destruct m as [|m]; [vm_compute; reflexivity|]). lia.
Qed.

Lemma toc_later_period (m p : nat) :
  toc_layout_n (28 + m) (A4_height - 50)%Q p = toc_layout_n m (A4_height - 50)%Q (S p).
Proof. vm_compute. reflexivity. Qed.

Lemma toc_first_short (m p : nat) :
  m < 25 -> toc_layout_n m (A4_height - 50 - 80)%Q p = p.
Proof.
  intro H. do 25 (destruct m as [|m]; [vm_compute; reflexivity|]). lia.
Qed.

Lemma toc_first_page (m p : nat) :
  toc_layout_n (25 + m) (A4_height - 50 - 80)%Q p = toc_layout_n m (A4_height - 50)%Q (S p).
Proof. vm_compute. reflexivity. Qed.

Lemma toc_later_pages (k r p : nat) :
  r < 28 -> toc_layout_n (28 * k + r) (A4_height - 50)%Q p = p + k.
Proof.
  intro Hr. revert p. induction k as [|k IH]; intro p.
  - rewrite Nat.mul_0_r, Nat.add_0_l, toc_later_short by exact Hr. lia.
  - replace (28 * S k + r) with (28 + (28 * k + r)) by lia.
    rewrite toc_later_period, IH. lia.
Qed.

End TocFacts.

Section DotFacts.

Lemma dots_loop_progression (m : nat) (fuel : nat) (x e : Q) :
  (forall k, (k < m)%nat -> x + 4 * inject_Z (Z.of_nat k) < e) ->
  e <= x + 4 * inject_Z (Z.of_nat m) -> (m < fuel)%nat ->
  length (dots_loop fuel x e) = m /\
  (forall k d, nth_error (dots_loop fuel x e) k = Some d ->
     d == x + 4 * inject_Z (Z.of_nat k)).
Proof.
  revert fuel x. induction m as [|m IH]; intros fuel x Hlt Hge Hf;
    (destruct fuel as [|f]; [lia|]); cbn [dots_loop].
  - replace (Qlt_bool x e) with false.
    2:{ symmetry. apply Qlt_bool_false_iff. change (inject_Z (Z.of_nat 0)) with 0 in Hge. lra. }
    split; [reflexivity | intros k d Hk; destruct k; discriminate].
  - replace (Qlt_bool x e) with true.
    2:{ symmetry. apply Qlt_bool_iff. specialize (Hlt 0%nat ltac:(lia)).
        change (inject_Z (Z.of_nat 0)) with 0 in Hlt. lra. }
    destruct (IH f (x + 4)) as [IHl IHn].
    + intros k Hk. specialize (Hlt (S k) ltac:(lia)).
      rewrite Nat2Z.inj_succ, <- Z.add_1_r, inject_Z_plus in Hlt.
      change (inject_Z 1) with 1 in Hlt. lra.
    + rewrite Nat2Z.inj_succ, <- Z.add_1_r, inject_Z_plus in Hge.
      change (inject_Z 1) with 1 in Hge. lra.
    + lia.
    + split; [cbn [length]; rewrite IHl; reflexivity|].
      intros [|k] d Hk; cbn [nth_error] in Hk.
      * injection Hk as <-. change (inject_Z (Z.of_nat 0)) with 0. ring.
      * apply IHn in Hk. rewrite Hk, Nat2Z.inj_succ, <- Z.add_1_r, inject_Z_plus.
        change (inject_Z 1) with 1. ring.
Qed.

End DotFacts.

End TocRenderer.

Module TocRendererExtras.
Import Merger TocRenderer.

(** The TOC canvas puts 25 entries on its first page and 28 on every later
    page, and starts a new page right after each full one (a page [c.save()]
    still emits, as [setFont] has drawn on it), so n entries take
    1 + (n + 3) / 28 pages (integer division): one page up to 24 entries,
    two from 25 entries on (the second one blank for exactly 25). *)
Theorem toc_page_count_closed_form (entries : list page_info) :
  toc_page_count entries = (1 + (length entries + 3) / 28)%nat.
Proof.
  unfold toc_page_count. rewrite toc_layout_as_n.
  set (n := length entries).
  destruct (Nat.lt_ge_cases n 25) as [Hs|Hb].
  - rewrite toc_first_short by exact Hs.
    rewrite Nat.div_small by lia. reflexivity.
  - replace n with (25 + (n - 25))%nat by lia.
    rewrite toc_first_page.
    rewrite (Nat.div_mod (n - 25) 28) at 1 by lia.
    rewrite toc_later_pages by (apply Nat.mod_upper_bound; lia).
    replace (25 + (n - 25) + 3)%nat with (1 * 28 + (n - 25))%nat by lia.
    rewrite Nat.div_add_l by lia. lia.
Qed.

(** The dot leader of a TOC entry: no dot when [start_x >= end_x];
    otherwise ceil((end_x - start_x) / 4) dots, the k-th (from 0) at
    [start_x + 4 k], all within [start_x, end_x). *)
Theorem dot_leader_positions (start_x end_x : Q) :
  (end_x <= start_x -> draw_dots_reportlab start_x end_x = []) /\
  (start_x < end_x ->
     Z.of_nat (length (draw_dots_reportlab start_x end_x)) =
       Qceiling ((end_x - start_x) / 4) /\
     (forall k d, nth_error (draw_dots_reportlab start_x end_x) k = Some d ->
        d == start_x + 4 * inject_Z (Z.of_nat k) /\ start_x <= d /\ d < end_x)).
Proof.
  unfold draw_dots_reportlab, dot_spacing. split.
  - intro H. replace (Qle_bool end_x start_x) with true
      by (symmetry; apply Qle_bool_iff; exact H). reflexivity.
  - intro H. replace (Qle_bool end_x start_x) with false.
    2:{ symmetry. destruct (Qle_bool end_x start_x) eqn:E; [|reflexivity].
        apply Qle_bool_iff in E. lra. }
    set (c := Qceiling ((end_x - start_x) / 4)).
    assert (Hc1 : (end_x - start_x) / 4 <= inject_Z c) by apply Qle_ceiling.
    assert (Hc2 : inject_Z (c - 1) < (end_x - start_x) / 4) by apply Qceiling_lt.
    assert (Hsub : inject_Z (c - 1) == inject_Z c - 1)
      by (unfold Z.sub; rewrite inject_Z_plus, inject_Z_opp; reflexivity).
    rewrite Hsub in Hc2.
    unfold Qdiv in Hc1, Hc2. change (/ 4) with (1 # 4) in Hc1, Hc2.
    assert (Hcpos : (0 < c)%Z).
    { rewrite Zlt_Qlt. change (inject_Z 0) with 0. lra. }
    assert (Hm : Z.of_nat (Z.to_nat c) = c) by (apply Z2Nat.id; lia).
    assert (Hlt : forall k, (k < Z.to_nat c)%nat ->
                    start_x + 4 * inject_Z (Z.of_nat k) < end_x).
    { intros k Hk. assert (Hkz : (Z.of_nat k <= c - 1)%Z) by lia.
      rewrite Zle_Qle, Hsub in Hkz. lra. }
    destruct (dots_loop_progression (Z.to_nat c) (S (Z.to_nat c)) start_x end_x Hlt)
      as [Hlen Hnth].
    + rewrite Hm. lra.
    + lia.
    + split; [rewrite Hlen; exact Hm|].
      intros k d Hk.
      assert (Hkl : (k < Z.to_nat c)%nat)
        by (rewrite <- Hlen; apply nth_error_Some; congruence).
      pose proof (Hnth k d Hk) as Hd. specialize (Hlt k Hkl).
      assert (H0 : 0 <= inject_Z (Z.of_nat k))
        by (change 0 with (inject_Z 0); rewrite <- Zle_Qle; lia).
      split; [exact Hd|]. split; lra.
Qed.

End TocRendererExtras.

(* ------------------------------------------------------------------ *)
(** ** Progress tracking ([utils.ProgressTracker]) *)

Module Progress.
Import SpecFloat.
Local Open Scope Z_scope.

(** [float(n)] for a Python int: the nearest double; [OverflowError] when
    it is beyond the largest finite double. *)
Definition py_float_of_int (n : Z) : py_result spec_float :=
  match binary_normalize 53 1024 n 0 false with
  | S754_infinity _ => Raise OverflowError
  | x => Ok x
  end.

(** [a / b] on two ints (CPython's [long_true_divide]): [ZeroDivisionError]
    for a zero divisor, a signed zero for a zero dividend, otherwise the
    quotient rounded once to the nearest double, [OverflowError] when that
    is beyond the largest finite double. *)
Definition py_truediv_int (a b : Z) : py_result spec_float :=
  if Z.eqb b 0 then Raise ZeroDivisionError else
  match a with
  | Z0 => Ok (S754_zero (Z.ltb b 0))
  | _ =>
      match SFdiv 53 1024 (S754_finite (Z.ltb a 0) (Z.to_pos (Z.abs a)) 0)
                          (S754_finite (Z.ltb b 0) (Z.to_pos (Z.abs b)) 0) with
      | S754_infinity _ => Raise OverflowError
      | x => Ok x
      end
  end.

(** [x * n] for a float [x] and an int [n]: [n] is converted by [float(n)],
    then the IEEE product is taken (an infinity or a nan is a value, not an
    exception). *)
Definition py_mul_float_int (x : spec_float) (n : Z) : py_result spec_float :=
  match py_float_of_int n with
  | Ok y => Ok (SFmul 53 1024 x y)
  | Raise e => Raise e
  end.

(** [int(x)] for a float: [ValueError] on a nan, [OverflowError] on an
    infinity, truncation towards zero otherwise. *)
Definition py_int_float (x : spec_float) : py_result Z :=
  match x with
  | S754_nan => Raise ValueError
  | S754_infinity _ => Raise OverflowError
  | S754_zero _ => Ok 0
  | S754_finite s m e =>
      Ok (cond_Zopp s (if Z.leb 0 e then Z.shiftl (Zpos m) e else Z.shiftr (Zpos m) (- e)))
  end.

Record progress_tracker := {
  total_steps : nat;
  current_step : nat;
  step_weights : list Z
}.

(** [sum(...)] over a list of int weights. *)
Definition sum_int (l : list Z) : Z := fold_right Z.add 0 l.

(** [ProgressTracker(total_steps)]: [step_weights = [1] * total_steps], a
    list of ints.  [set_step_weights] is not modelled: no code of the
    repository calls it, so the weights keep these values. *)
Definition new_tracker (n : nat) : progress_tracker :=
  {| total_steps := n; current_step := 0; step_weights := repeat 1 n |}.

(** [int((completed_weight / total_weight) * 100)], evaluated as Python
    does: int division to a double, product with [100], [int()]. *)
Definition percent_of (completed_weight total_weight : Z) : py_result Z :=
  match py_truediv_int completed_weight total_weight with
  | Raise e => Raise e
  | Ok q =>
      match py_mul_float_int q 100 with
      | Raise e => Raise e
      | Ok x => py_int_float x
      end
  end.

Definition get_progress_percentage (t : progress_tracker) : py_result Z :=
  if Nat.eqb (total_steps t) 0 then Ok 100 else
  let total_weight := sum_int (step_weights t) in
  let completed_weight := sum_int (firstn (current_step t) (step_weights t)) in
  percent_of completed_weight total_weight.

Definition next_step (t : progress_tracker) : progress_tracker :=
  if Nat.ltb (current_step t) (total_steps t)
  then {| total_steps := total_steps t; current_step := S (current_step t);
          step_weights := step_weights t |}
  else t.

Definition reset (t : progress_tracker) : progress_tracker :=
  {| total_steps := total_steps t; current_step := 0; step_weights := step_weights t |}.

(** A sequence of calls on one tracker. *)
Inductive tracker_op :=
| NextStep
| Reset.

Definition apply_op (t : progress_tracker) (o : tracker_op) : progress_tracker :=
  match o with
  | NextStep => next_step t
  | Reset => reset t
  end.

Definition run_ops (t : progress_tracker) (ops : list tracker_op) : progress_tracker :=
  fold_left apply_op ops t.


Section FloatBounds.









End FloatBounds.

Section ProgressFacts.










End ProgressFacts.

End Progress.

Module ProgressExtras.
Import Progress.



(** The percentage is computed in doubles, not as [100 * k // n]: with 50
    steps, after 29 calls of [next_step] it is [int((29 / 50) * 100)] =
    57, while [100 * 29 // 50] = 58. *)
Theorem progress_percentage_float_rounding :
  get_progress_percentage (run_ops (new_tracker 50) (repeat NextStep 29)) = Ok 57%Z /\
  (100 * 29 / 50 = 58)%nat.
Proof. split; vm_compute; reflexivity. Qed.

End ProgressExtras.

(* ------------------------------------------------------------------ *)
(** ** The TOC font ([ChineseFontManager.register_chinese_font]) *)

Module FontManager.
Local Open Scope string_scope.

Definition font_paths : list string := [
  "C:\Windows\Fonts\simhei.ttf";
  "C:\Windows\Fonts\SimHei.ttf";
  "C:\Windows\Fonts\simsun.ttc";
  "C:\Windows\Fonts\SimSun.ttc";
  "C:\Windows\Fonts\msyh.ttc";
  "C:\Windows\Fonts\msyhbd.ttc";
  "C:\Windows\Fonts\ARIALUNI.TTF";
  "C:\Program Files\Microsoft Office\root\VFS\Fonts\private\ARIALUNI.TTF"].

(** The names tried, in order, for a [.ttc] file. *)
Definition ttc_font_names : list string := ["SimSun"; "SimHei"; "MSYaHei"].

(** [str.lower] on ASCII text. *)
Definition ascii_lower (c : ascii) : ascii :=
  let n := nat_of_ascii c in
  if andb (Nat.leb 65 n) (Nat.leb n 90) then ascii_of_nat (n + 32) else c.

Fixpoint str_lower (s : string) : string :=
  match s with
  | EmptyString => EmptyString
  | String c s' => String (ascii_lower c) (str_lower s')
  end.

(** [needle in s]. *)
Definition str_contains (needle s : string) : bool :=
  match String.index 0 needle s with Some _ => true | None => false end.

(** [s.endswith(suffix)]. *)
Definition str_endswith (suffix s : string) : bool :=
  Nat.leb (String.length suffix) (String.length s) &&
  String.eqb (substring (String.length s - String.length suffix) (String.length suffix) s) suffix.

Record font_manager := {
  font_registered : bool;
  fm_font_name : string
}.

(** [ChineseFontManager()]. *)
Definition new_font_manager : font_manager :=
  {| font_registered := false; fm_font_name := "SimHei" |}.

(** The environment: which paths exist, and for which (name, path)
    [pdfmetrics.registerFont(TTFont(name, path))] succeeds. *)
Record font_env := {
  path_exists : string -> bool;
  register_ok : string -> string -> bool
}.

(** The inner loop over the names of a [.ttc] file. *)
Fixpoint try_ttc_names (env : font_env) (names : list string) (font_path : string)
    : option string :=
  match names with
  | [] => None
  | nm :: rest => if register_ok env nm font_path then Some nm
                  else try_ttc_names env rest font_path
  end.

(** [for font_path in font_paths]: the name in [self.font_name], whether
    [font_found] was set (the loop then breaks), and the registrations made. *)
Fixpoint try_font_paths (env : font_env) (paths : list string) (font_name : string)
    : string * bool * list (string * string) :=
  match paths with
  | [] => (font_name, false, [])
  | p :: ps =>
      if negb (path_exists env p) then try_font_paths env ps font_name
      else if str_endswith ".ttc" p then
        match try_ttc_names env ttc_font_names p with
        | Some nm => (nm, true, [(nm, p)])
        | None => try_font_paths env ps font_name
        end
      else
        let lp := str_lower p in
        let choice :=
          if str_contains "simhei" lp then Some "SimHei"
          else if str_contains "simsun" lp then Some "SimSun"
          else if str_contains "msyh" lp then Some "MSYaHei"
          else if str_contains "arial" lp then Some "ArialUnicode"
          else None in
        match choice with
        | Some nm =>
            (* a failing [registerFont] raises before [font_found = True] *)
            if register_ok env nm p then (nm, true, [(nm, p)])
            else try_font_paths env ps font_name
        | None => (font_name, true, [])
        end
  end.

Definition register_chinese_font (env : font_env) (fm : font_manager)
    : font_manager * string * list (string * string) :=
  if font_registered fm then (fm, fm_font_name fm, []) else
  let '(nm, found, regs) := try_font_paths env font_paths (fm_font_name fm) in
  let nm' := if found then nm else "Helvetica" in
  ({| font_registered := true; fm_font_name := nm' |}, nm', regs).

End FontManager.

Module FontManagerExtras.
Import FontManager.
Local Open Scope string_scope.

Lemma try_font_paths_result (env : font_env) (paths : list string) (nm0 : string) :
  (forall p, In p paths -> str_endswith ".ttc" p = false ->
     exists nm, (if str_contains "simhei" (str_lower p) then Some "SimHei"
                 else if str_contains "simsun" (str_lower p) then Some "SimSun"
                 else if str_contains "msyh" (str_lower p) then Some "MSYaHei"
                 else if str_contains "arial" (str_lower p) then Some "ArialUnicode"
                 else None) = Some nm) ->
  let '(nm, found, regs) := try_font_paths env paths nm0 in
  (found = false /\ nm = nm0 /\ regs = []) \/
  (found = true /\ exists p, In p paths /\ path_exists env p = true /\
     register_ok env nm p = true /\ regs = [(nm, p)]).
Proof.
  induction paths as [|p ps IH]; intro Hch; cbn [try_font_paths]; [left; auto|].
  assert (IH' := IH (fun q Hq => Hch q (or_intror Hq))).
  destruct (path_exists env p) eqn:Ep; cbn [negb].
  2:{ destruct (try_font_paths env ps nm0) as [[n f] r].
      destruct IH' as [H|(Hf & q & Hq & H)]; [left; exact H | right; split; [exact Hf|]].
      exists q. split; [right; exact Hq | exact H]. }
  destruct (str_endswith ".ttc" p) eqn:Et.
  - destruct (try_ttc_names env ttc_font_names p) as [nm|] eqn:Et2.
    + right. split; [reflexivity|]. exists p. split; [left; reflexivity|].
      split; [exact Ep|]. split; [|reflexivity].
      revert Et2. generalize ttc_font_names. intro l. induction l as [|x l IHl]; cbn;
        [discriminate|]. destruct (register_ok env x p) eqn:Er;
        [intro E; injection E as <-; exact Er | exact IHl].
    + destruct (try_font_paths env ps nm0) as [[n f] r].
      destruct IH' as [H|(Hf & q & Hq & H)]; [left; exact H | right; split; [exact Hf|]].
      exists q. split; [right; exact Hq | exact H].
  - destruct (Hch p (or_introl eq_refl) Et) as [nm Hnm]. cbv zeta. rewrite Hnm.
    destruct (register_ok env nm p) eqn:Er.
    + right. split; [reflexivity|]. exists p. repeat split; auto. left; reflexivity.
    + destruct (try_font_paths env ps nm0) as [[n f] r].
      destruct IH' as [H|(Hf & q & Hq & H)]; [left; exact H | right; split; [exact Hf|]].
      exists q. split; [right; exact Hq | exact H].
Qed.

Lemma font_paths_have_choice : forall p, In p font_paths -> str_endswith ".ttc" p = false ->
  exists nm, (if str_contains "simhei" (str_lower p) then Some "SimHei"
              else if str_contains "simsun" (str_lower p) then Some "SimSun"
              else if str_contains "msyh" (str_lower p) then Some "MSYaHei"
              else if str_contains "arial" (str_lower p) then Some "ArialUnicode"
              else None) = Some nm.
Proof.
  intros p Hp Ht. unfold font_paths in Hp.
  repeat (destruct Hp as [<-|Hp];
          [first [vm_compute in Ht; discriminate | eexists; vm_compute; reflexivity]|]).
  destruct Hp.
Qed.

(** [register_chinese_font] on a fresh manager returns either "Helvetica"
    with nothing registered, or a name it registered in this call from a
    listed font file that exists; every later call returns that same name
    and registers nothing, whatever the file system then holds. *)
Theorem font_registration_memoised (env env' : font_env) :
  let '(fm1, n1, regs1) := register_chinese_font env new_font_manager in
  ((n1 = "Helvetica" /\ regs1 = []) \/
   (exists p, In p font_paths /\ path_exists env p = true /\
      register_ok env n1 p = true /\ regs1 = [(n1, p)])) /\
  register_chinese_font env' fm1 = (fm1, n1, []).
Proof.
  unfold register_chinese_font at 1. cbn [font_registered new_font_manager fm_font_name].
  pose proof (try_font_paths_result env font_paths "SimHei" font_paths_have_choice) as H.
  destruct (try_font_paths env font_paths "SimHei") as [[n f] r].
  destruct H as [(-> & _ & ->)|(-> & q & Hq & Hq')].
  - split; [left; auto | reflexivity].
  - split; [right; exists q; exact (conj Hq Hq') | reflexivity].
Qed.

End FontManagerExtras.

(* ------------------------------------------------------------------ *)
(** ** The conversion run ([PPTConverterThread.run]) *)

Module Pipeline.
Import Merger.
Local Open Scope nat_scope.













End Pipeline.

Module PipelineFacts.
Import Merger Pipeline.
Local Open Scope nat_scope.




































End PipelineFacts.

Module PipelineExtras.
Import Merger MergerFacts Pipeline PipelineFacts.
Local Open Scope nat_scope.










End PipelineExtras.

(* ------------------------------------------------------------------ *)
(** ** The PowerShell export's file listing ([_convert_with_powershell_com]) *)

Module SlideListing.
Local Open Scope nat_scope.
Local Open Scope string_scope.

(** The decimal digits of n, most significant first. *)
Fixpoint decimal_aux (fuel n : nat) (acc : string) : string :=
  match fuel with
  | O => acc
  | S f =>
      let acc' := String (ascii_of_nat (48 + n mod 10)) acc in
      if Nat.ltb n 10 then acc' else decimal_aux f (n / 10) acc'
  end.

Definition decimal (n : nat) : string := decimal_aux (S n) n "".

Fixpoint zeros (k : nat) : string :=
  match k with O => "" | S k' => String (ascii_of_nat 48) (zeros k') end.

(** [$i.ToString("000")]: at least three digits, padded with zeros. *)
Definition format_000 (n : nat) : string :=
  let d := decimal n in zeros (3 - String.length d) ++ d.

(** The file the script exports slide i to:
    [("slide_" + $i.ToString("000") + ".png")]. *)
Definition slide_file (i : nat) : string := "slide_" ++ format_000 i ++ ".png".

(** [os.path.join(output_dir, file)] ([ntpath.join]) for a plain file name:
    a separator is added unless the directory is empty, already ends with a
    separator, or is a bare drive ["X:"]. *)
Definition join_prefix (dir : string) : string :=
  if String.eqb dir "" then "" else
  if FontManager.str_endswith "\" dir || FontManager.str_endswith "/" dir then dir else
  if Nat.eqb (String.length dir) 2 && FontManager.str_endswith ":" dir then dir else
  dir ++ "\".

Definition path_join (dir file : string) : string := join_prefix dir ++ file.

(** [file.startswith("slide_") and file.endswith(".png")]. *)
Definition is_slide_png (file : string) : bool :=
  String.prefix "slide_" file && FontManager.str_endswith ".png" file.

Fixpoint insert_str (x : string) (l : list string) : list string :=
  match l with
  | [] => [x]
  | y :: ys => if String.leb x y then x :: y :: ys else y :: insert_str x ys
  end.

(** [list.sort()] on strings: code-point order; equal strings are
    identical, so stability does not show. *)
Definition sort_strings (l : list string) : list string := fold_right insert_str [] l.

(** After the script ran: [for file in os.listdir(output_dir)] keep the
    [slide_*.png] names, joined to the directory, then [image_files.sort()]. *)
Definition collect_slide_images (output_dir : string) (listing : list string) : list string :=
  sort_strings (map (path_join output_dir) (filter is_slide_png listing)).

End SlideListing.

Module SlideListingFacts.
Import SlideListing.
Local Open Scope nat_scope.
Local Open Scope string_scope.

Definition str_le (a b : string) : Prop := String.leb a b = true.

Lemma ascii_compare_refl (c : ascii) : Ascii.compare c c = Eq.
Proof. unfold Ascii.compare. apply N.compare_refl. Qed.

Lemma compare_app_prefix (p a b : string) :
  String.compare (p ++ a) (p ++ b) = String.compare a b.
Proof. induction p as [|c p IH]; cbn; [reflexivity|]. rewrite ascii_compare_refl. exact IH. Qed.

Lemma leb_app_prefix (p a b : string) : String.leb (p ++ a) (p ++ b) = String.leb a b.
Proof. unfold String.leb. rewrite compare_app_prefix. reflexivity. Qed.

Lemma compare_not_gt_trans (a b c : string) :
  String.compare a b <> Gt -> String.compare b c <> Gt -> String.compare a c <> Gt.
Proof.
  revert b c. induction a as [|x a IH]; intros [|y b] [|z c]; cbn; try congruence.
  unfold Ascii.compare.
  destruct (N.compare_spec (N_of_ascii x) (N_of_ascii y)) as [E1|E1|E1];
  destruct (N.compare_spec (N_of_ascii y) (N_of_ascii z)) as [E2|E2|E2];
  destruct (N.compare_spec (N_of_ascii x) (N_of_ascii z)) as [E3|E3|E3];
  try lia; try congruence.
  intros H1 H2. apply (IH b c H1 H2).
Qed.

Lemma str_le_trans (a b c : string) : str_le a b -> str_le b c -> str_le a c.
Proof.
  unfold str_le, String.leb.
  destruct (String.compare a b) eqn:E1; try discriminate;
  destruct (String.compare b c) eqn:E2; try discriminate;
  destruct (String.compare a c) eqn:E3; try reflexivity;
  exfalso; refine (compare_not_gt_trans a b c _ _ E3); congruence.
Qed.

#[local] Instance str_le_Transitive : Transitive str_le.
Proof. intros a b c. apply str_le_trans. Qed.

Lemma str_le_not (a b : string) : String.leb a b = false -> str_le b a.
Proof.
  intro H. destruct (String.leb_total a b) as [E|E]; [congruence | exact E].
Qed.

Lemma insert_str_perm (x : string) (l : list string) : Permutation (insert_str x l) (x :: l).
Proof.
  induction l as [|y ys IH]; cbn; [reflexivity|].
  destruct (String.leb x y); [reflexivity|].
  rewrite IH. apply perm_swap.
Qed.

Lemma insert_str_sorted (x : string) (l : list string) :
  Sorted str_le l -> Sorted str_le (insert_str x l).
Proof.
  induction 1 as [|y ys Hs IH Hd]; cbn; [repeat constructor|].
  destruct (String.leb x y) eqn:E.
  - constructor; [constructor; assumption | constructor; exact E].
  - constructor; [exact IH|].
    destruct ys as [|z zs]; cbn; [constructor; apply str_le_not, E|].
    inversion Hd as [|? ? Hyz]; subst.
    destruct (String.leb x z); constructor; [apply str_le_not, E | exact Hyz].
Qed.

Lemma sort_strings_spec (l : list string) :
  Sorted str_le (sort_strings l) /\ Permutation (sort_strings l) l.
Proof.
  induction l as [|x l [IHs IHp]]; cbn; [split; constructor|].
  split; [apply insert_str_sorted, IHs|].
  rewrite insert_str_perm, IHp. reflexivity.
Qed.

Lemma sorted_perm_unique (l1 l2 : list string) :
  Sorted str_le l1 -> Sorted str_le l2 -> Permutation l1 l2 -> l1 = l2.
Proof.
  intros H1 H2 Hp. apply Sorted_StronglySorted in H1; [|exact str_le_Transitive].
  apply Sorted_StronglySorted in H2; [|exact str_le_Transitive].
  revert l2 H2 Hp. induction H1 as [|a l1 _ IH Ha]; intros l2 H2 Hp.
  - symmetry. apply Permutation_nil, Hp.
  - destruct l2 as [|b l2]; [apply Permutation_sym, Permutation_nil in Hp; discriminate|].
    inversion H2 as [|? ? H2' Hb]; subst.
    assert (Hab : a = b).
    { assert (Ia : In a (b :: l2)) by (eapply Permutation_in; [exact Hp | left; reflexivity]).
      assert (Ib : In b (a :: l1)) by (eapply Permutation_in; [symmetry; exact Hp | left; reflexivity]).
      destruct Ia as [->|Ia]; [reflexivity|]. destruct Ib as [->|Ib]; [reflexivity|].
      apply String.leb_antisym.
      - eapply Forall_forall in Ha; [exact Ha | exact Ib].
      - eapply Forall_forall in Hb; [exact Hb | exact Ia]. }
    subst b. f_equal. apply IH; [exact H2'|]. apply Permutation_cons_inv in Hp. exact Hp.
Qed.

Lemma Permutation_filter_bool {A} (p : A -> bool) (l l' : list A) :
  Permutation l l' -> Permutation (filter p l) (filter p l').
Proof.
  induction 1 as [|x l l' _ IH|x y l|l l' l'' _ IH1 _ IH2]; cbn.
  - constructor.
  - destruct (p x); [constructor|]; exact IH.
  - destruct (p x), (p y); try constructor; reflexivity.
  - rewrite IH1. exact IH2.
Qed.

Lemma string_length_app (a b : string) :
  String.length (a ++ b) = String.length a + String.length b.
Proof. induction a as [|c a IH]; cbn; [reflexivity|]. rewrite IH. reflexivity. Qed.

Lemma substring_app_suffix (a b : string) :
  substring (String.length a) (String.length b) (a ++ b) = b.
Proof.
  induction a as [|c a IH]; cbn; [|exact IH].
  induction b as [|d b IHb]; cbn; [reflexivity|]. rewrite IHb. reflexivity.
Qed.

Lemma string_app_assoc (a b c : string) : a ++ (b ++ c) = (a ++ b) ++ c.
Proof. induction a as [|x a IH]; cbn; [reflexivity|]. rewrite IH. reflexivity. Qed.

Lemma endswith_app (a suf : string) : FontManager.str_endswith suf (a ++ suf) = true.
Proof.
  unfold FontManager.str_endswith. rewrite string_length_app.
  replace (String.length a + String.length suf - String.length suf) with (String.length a) by lia.
  rewrite substring_app_suffix, String.eqb_refl, andb_true_r.
  apply Nat.leb_le. lia.
Qed.

Lemma prefix_app (p s : string) : String.prefix p (p ++ s) = true.
Proof.
  induction p as [|c p IH]; cbn; [destruct s; reflexivity|].
  destruct (ascii_dec c c) as [_|E]; [exact IH | congruence].
Qed.

Lemma slide_file_selected (i : nat) : is_slide_png (slide_file i) = true.
Proof.
  unfold is_slide_png, slide_file. rewrite prefix_app, string_app_assoc, endswith_app.
  reflexivity.
Qed.

Lemma filter_all_true {A} (p : A -> bool) (l : list A) :
  Forall (fun x => p x = true) l -> filter p l = l.
Proof. induction 1 as [|x l Hx _ IH]; cbn; [reflexivity|]. rewrite Hx, IH. reflexivity. Qed.

Lemma filter_all_false {A} (p : A -> bool) (l : list A) :
  Forall (fun x => p x = false) l -> filter p l = [].
Proof. induction 1 as [|x l Hx _ IH]; cbn; [reflexivity|]. rewrite Hx. exact IH. Qed.

(** Consecutive exported names, up to slide 999, are in code-point order. *)
Lemma slide_files_consecutive_upto_999 :
  forallb (fun i => String.leb (slide_file i) (slide_file (S i))) (seq 1 998) = true.
Proof. vm_compute. reflexivity. Qed.

Lemma sorted_map_seq (f : nat -> string) (a m : nat) :
  (forall i, a <= i -> S i < a + m -> str_le (f i) (f (S i))) ->
  Sorted str_le (map f (seq a m)).
Proof.
  revert a. induction m as [|m IH]; intros a H; cbn; [constructor|].
  constructor; [apply IH; intros; apply H; lia|].
  destruct m as [|m]; cbn; constructor. apply H; lia.
Qed.

Lemma slide_files_sorted (dir : string) (n : nat) :
  (n <= 999)%nat -> Sorted str_le (map (fun i => path_join dir (slide_file i)) (seq 1 n)).
Proof.
  intro Hn. apply sorted_map_seq. intros i Hi Hs.
  unfold str_le, path_join. rewrite leb_app_prefix.
  pose proof slide_files_consecutive_upto_999 as H.
  rewrite forallb_forall in H. apply H, in_seq. lia.
Qed.

Lemma Sorted_app_inv {A} (R : A -> A -> Prop) (l1 l2 : list A) :
  Sorted R (l1 ++ l2) -> Sorted R l2.
Proof.
  induction l1 as [|x l1 IH]; cbn; [exact id|]. intro H. apply Sorted_inv in H. apply IH, H.
Qed.

End SlideListingFacts.

Module SlideListingExtras.
Import SlideListing SlideListingFacts.
Local Open Scope nat_scope.
Local Open Scope string_scope.

(** Up to 999 slides, the PowerShell fallback's listing of the output
    directory yields the exported images in slide order, whatever order
    [os.listdir] returns and whatever other files (not named [slide_*.png])
    lie beside them. *)
Theorem slide_listing_in_slide_order (dir : string) (n : nat) (others listing : list string) :
  n <= 999 ->
  Forall (fun f => is_slide_png f = false) others ->
  Permutation listing (map slide_file (seq 1 n) ++ others) ->
  collect_slide_images dir listing = map (fun i => path_join dir (slide_file i)) (seq 1 n).
Proof.
  intros Hn Ho Hp. unfold collect_slide_images.
  destruct (sort_strings_spec (map (path_join dir) (filter is_slide_png listing))) as [Hs Hq].
  apply sorted_perm_unique; [exact Hs | apply slide_files_sorted, Hn|].
  rewrite Hq. apply (Permutation_filter_bool is_slide_png) in Hp. rewrite Hp.
  rewrite filter_app, (filter_all_false _ others Ho), app_nil_r.
  rewrite filter_all_true by (apply Forall_forall; intros f Hf;
    apply in_map_iff in Hf as [i [<- _]]; apply slide_file_selected).
  rewrite map_map. reflexivity.
Qed.

(** From 1000 slides on, the string sort no longer gives slide order:
    ["slide_1000.png"] sorts before ["slide_101.png"], so the pages come out
    of order whatever the directory listing was. *)
Theorem slide_listing_out_of_order_from_1000 (dir : string) (n : nat) (listing : list string) :
  1000 <= n ->
  collect_slide_images dir listing <> map (fun i => path_join dir (slide_file i)) (seq 1 n).
Proof.
  intros Hn E. unfold collect_slide_images in E.
  destruct (sort_strings_spec (map (path_join dir) (filter is_slide_png listing))) as [Hs _].
  rewrite E in Hs. clear E.
  replace n with (998 + (2 + (n - 1000))) in Hs by lia.
  rewrite seq_app, map_app in Hs. apply Sorted_app_inv in Hs.
  rewrite seq_app, map_app in Hs. cbn [seq map app] in Hs.
  apply Sorted_inv in Hs as [_ Hd]. inversion Hd as [|? ? Hle]; subst.
  unfold str_le, path_join in Hle. rewrite leb_app_prefix in Hle.
  vm_compute in Hle. discriminate.
Qed.

Definition demo_listing : list string :=
  [slide_file 2; slide_file 1; slide_file 3; "convert_ppt.ps1"].

Lemma slide_listing_in_slide_order_witness :
  collect_slide_images "C:\out" demo_listing
  = map (fun i => path_join "C:\out" (slide_file i)) (seq 1 3).
Proof.
  apply (slide_listing_in_slide_order "C:\out" 3 ["convert_ppt.ps1"] demo_listing).
  - lia.
  - constructor; [vm_compute; reflexivity | constructor].
  - unfold demo_listing. cbn [seq map app]. apply perm_swap.
Defined.

Lemma slide_listing_out_of_order_from_1000_witness :
  collect_slide_images "C:\out" (map slide_file (seq 1 1000))
  <> map (fun i => path_join "C:\out" (slide_file i)) (seq 1 1000).
Proof.
  apply (slide_listing_out_of_order_from_1000 "C:\out" 1000 (map slide_file (seq 1 1000))).
  lia.
Defined.

End SlideListingExtras.

(* ------------------------------------------------------------------ *)
(** ** [clean_filename] (utils.py)

    Characters are code points; an [ascii] stands for a code point below 256. *)

Module CleanFilename.
Local Open Scope nat_scope.
Local Open Scope string_scope.

(** The characters of [illegal_chars], by code point: [<], [>], [:], the
    double quote, [/], the backslash, [|], [?] and [*]. *)
Definition illegal_codes : list nat := [60; 62; 58; 34; 47; 92; 124; 63; 42].

Definition is_illegal (c : ascii) : bool :=
  existsb (Nat.eqb (nat_of_ascii c)) illegal_codes.

(** [str.isspace] on the code points below 256. *)
Definition space_codes : list nat := [9; 10; 11; 12; 13; 28; 29; 30; 31; 32; 133; 160].

Definition is_space (c : ascii) : bool :=
  existsb (Nat.eqb (nat_of_ascii c)) space_codes.

Definition underscore : ascii := ascii_of_nat 95.

(** [re.sub(illegal_chars, '_', filename)]: each match is one character. *)
Fixpoint replace_illegal (s : string) : string :=
  match s with
  | EmptyString => EmptyString
  | String c s' => String (if is_illegal c then underscore else c) (replace_illegal s')
  end.

Fixpoint lstrip (s : string) : string :=
  match s with
  | EmptyString => EmptyString
  | String c s' => if is_space c then lstrip s' else s
  end.

Fixpoint rstrip (s : string) : string :=
  match s with
  | EmptyString => EmptyString
  | String c s' =>
      let r := rstrip s' in
      if String.eqb r EmptyString && is_space c then EmptyString else String c r
  end.

(** [str.strip()]: leading and trailing whitespace removed. *)
Definition strip (s : string) : string := rstrip (lstrip s).

Definition clean_filename (filename : string) : string := strip (replace_illegal filename).

(** Every character of s satisfies p. *)
Fixpoint all_chars (p : ascii -> bool) (s : string) : bool :=
  match s with
  | EmptyString => true
  | String c s' => p c && all_chars p s'
  end.

End CleanFilename.

Module CleanFilenameFacts.
Import CleanFilename.
Local Open Scope nat_scope.
Local Open Scope string_scope.

Lemma underscore_legal : is_illegal underscore = false.
Proof. reflexivity. Qed.

Lemma replace_illegal_legal (s : string) : all_chars (fun c => negb (is_illegal c)) (replace_illegal s) = true.
Proof.
  induction s as [|c s IH]; cbn [replace_illegal all_chars lstrip rstrip append]; [reflexivity|]. rewrite IH, andb_true_r.
  destruct (is_illegal c) eqn:E; [reflexivity | rewrite E; reflexivity].
Qed.

Lemma replace_illegal_id (s : string) :
  all_chars (fun c => negb (is_illegal c)) s = true -> replace_illegal s = s.
Proof.
  induction s as [|c s IH]; cbn [replace_illegal all_chars lstrip rstrip append]; [reflexivity|]. intro H.
  apply andb_prop in H as [Hc Hs]. rewrite IH by exact Hs.
  destruct (is_illegal c); [discriminate | reflexivity].
Qed.

Lemma lstrip_split (s : string) :
  exists a, s = a ++ lstrip s /\ all_chars is_space a = true.
Proof.
  induction s as [|c s IH]; cbn [replace_illegal all_chars lstrip rstrip append]; [exists ""; auto|].
  destruct (is_space c) eqn:E.
  - destruct IH as [a [Ha Hs]]. exists (String c a). cbn [append all_chars]. rewrite E, Hs. split; [|reflexivity].
    rewrite <- Ha. reflexivity.
  - exists "". split; reflexivity.
Qed.

Lemma rstrip_split (s : string) :
  exists b, s = rstrip s ++ b /\ all_chars is_space b = true.
Proof.
  induction s as [|c s IH]; cbn [replace_illegal all_chars lstrip rstrip append]; [exists ""; auto|].
  destruct IH as [b [Hb Hs]].
  destruct (String.eqb (rstrip s) "") eqn:Er; destruct (is_space c) eqn:Ec; cbn.
  - apply String.eqb_eq in Er. rewrite Er in Hb. cbn in Hb. subst b.
    exists (String c s). cbn [append all_chars]. rewrite Ec, Hs. auto.
  - exists b. rewrite <- Hb. auto.
  - exists b. rewrite <- Hb. auto.
  - exists b. rewrite <- Hb. auto.
Qed.

Lemma rstrip_idem (s : string) : rstrip (rstrip s) = rstrip s.
Proof.
  induction s as [|c s IH]; [reflexivity|].
  change (rstrip (String c s))
    with (if String.eqb (rstrip s) "" && is_space c then "" else String c (rstrip s)).
  destruct (String.eqb (rstrip s) "" && is_space c) eqn:E; [reflexivity|].
  change (rstrip (String c (rstrip s)))
    with (if String.eqb (rstrip (rstrip s)) "" && is_space c then ""
          else String c (rstrip (rstrip s))).
  rewrite IH, E. reflexivity.
Qed.

Lemma rstrip_head (s : string) (c : ascii) (r : string) :
  rstrip s = String c r -> exists s', s = String c s'.
Proof.
  destruct s as [|d s]; cbn [replace_illegal all_chars lstrip rstrip append]; [discriminate|].
  destruct (_ && _); [discriminate|]. intro E. injection E as <- _. eauto.
Qed.

Lemma lstrip_head (s : string) (c : ascii) (r : string) :
  lstrip s = String c r -> is_space c = false.
Proof.
  induction s as [|d s IH]; cbn [replace_illegal all_chars lstrip rstrip append]; [discriminate|].
  destruct (is_space d) eqn:E; [exact IH|]. intro H. injection H as <- _. exact E.
Qed.

Lemma rstrip_last (s pre : string) (c : ascii) :
  rstrip s = pre ++ String c "" -> is_space c = false.
Proof.
  revert pre. induction s as [|d s IH]; intro pre; cbn [replace_illegal all_chars lstrip rstrip append]; [destruct pre; discriminate|].
  destruct (String.eqb (rstrip s) "" && is_space d) eqn:E; [destruct pre; discriminate|].
  destruct pre as [|e pre]; cbn; intro H; injection H as H1 H2.
  - subst d. rewrite H2 in E. cbn in E. exact E.
  - apply (IH pre). exact H2.
Qed.

Lemma rstrip_first_not_space (s : string) :
  match s with String c _ => is_space c = false | EmptyString => True end ->
  match rstrip s with String c _ => is_space c = false | EmptyString => True end.
Proof.
  intro H. destruct (rstrip s) as [|c r] eqn:E; [exact I|].
  destruct (rstrip_head s c r E) as [s' ->]. exact H.
Qed.

Lemma lstrip_id (s : string) :
  match s with String c _ => is_space c = false | EmptyString => True end -> lstrip s = s.
Proof. destruct s as [|c s]; cbn [replace_illegal all_chars lstrip rstrip append]; [reflexivity|]. intro H. rewrite H. reflexivity. Qed.

Lemma all_chars_app (p : ascii -> bool) (a b : string) :
  all_chars p (a ++ b) = all_chars p a && all_chars p b.
Proof. induction a as [|c a IH]; cbn [replace_illegal all_chars lstrip rstrip append]; [reflexivity|]. rewrite IH, andb_assoc. reflexivity. Qed.

Lemma strip_keeps_legal (s : string) :
  all_chars (fun c => negb (is_illegal c)) s = true ->
  all_chars (fun c => negb (is_illegal c)) (strip s) = true.
Proof.
  intro H. unfold strip.
  destruct (lstrip_split s) as [a [Ha _]].
  destruct (rstrip_split (lstrip s)) as [b [Hb _]].
  rewrite Ha, Hb, !all_chars_app in H.
  apply andb_prop in H as [_ H]. apply andb_prop in H as [H _]. exact H.
Qed.

End CleanFilenameFacts.

Module CleanFilenameExtras.
Import CleanFilename CleanFilenameFacts.
Local Open Scope nat_scope.
Local Open Scope string_scope.

(** [clean_filename] leaves no character of [illegal_chars] in the name; it
    keeps every other character in place, the illegal ones becoming [_],
    except for whitespace it strips from both ends; the result neither
    starts nor ends with whitespace, and cleaning it again changes
    nothing. *)
Theorem clean_filename_spec (filename : string) :
  let r := clean_filename filename in
  all_chars (fun c => negb (is_illegal c)) r = true /\
  (exists a b, replace_illegal filename = a ++ r ++ b /\
     all_chars is_space a = true /\ all_chars is_space b = true) /\
  (forall c rest, r = String c rest -> is_space c = false) /\
  (forall pre c, r = pre ++ String c "" -> is_space c = false) /\
  clean_filename r = r.
Proof.
  intro r. unfold r, clean_filename.
  set (t := replace_illegal filename).
  assert (Ht : all_chars (fun c => negb (is_illegal c)) t = true) by apply replace_illegal_legal.
  assert (Hl : all_chars (fun c => negb (is_illegal c)) (strip t) = true)
    by (apply strip_keeps_legal, Ht).
  assert (Hfirst : match lstrip t with String c _ => is_space c = false | EmptyString => True end).
  { destruct (lstrip t) as [|c q] eqn:E; [exact I|]. exact (lstrip_head t c q E). }
  split; [exact Hl|]. split; [|split; [|split]].
  - destruct (lstrip_split t) as [a [Ha Hsa]].
    destruct (rstrip_split (lstrip t)) as [b [Hb Hsb]].
    exists a, b. unfold strip. rewrite <- Hb. split; [exact Ha|]. split; assumption.
  - intros c rest E. unfold strip in E.
    pose proof (rstrip_first_not_space (lstrip t) Hfirst) as H. rewrite E in H. exact H.
  - intros pre c E. exact (rstrip_last (lstrip t) pre c E).
  - rewrite (replace_illegal_id (strip t) Hl). unfold strip at 1 2.
    rewrite lstrip_id by exact (rstrip_first_not_space (lstrip t) Hfirst).
    apply rstrip_idem.
Qed.

End CleanFilenameExtras.
